(** * walkie-talkie: the conversation-window manager of the voice assistant

  A shallow embedding of [agent.py] (class [VoiceAssistant]) and of the
  HTTP routes of [server.py], followed by the properties of the window,
  of the LLM message history and of the validation done by the routes.

  The three external services (speech-to-text, chat completion,
  text-to-speech) and the clock are opaque: every call receives a
  [World] that says what they answer, or that they raise. *)

From Stdlib Require Import ZArith Lia Ascii.
From stdpp Require Import base option list strings gmap pretty.

Open Scope Z_scope.

(** ** Python primitives used by the two files *)

Module Py.

(** [str]: a sequence of characters; code points below 256. *)
Definition str := string.
Definition bytes := list Byte.byte.

(** [str.isspace] on one character (the code points below 256 that
    CPython's [_PyUnicode_IsWhitespace] accepts). *)
Definition isspace (c : ascii) : bool :=
  let n := Z.of_nat (nat_of_ascii c) in
  ((9 <=? n) && (n <=? 13)) || ((28 <=? n) && (n <=? 32))
  || (n =? 133) || (n =? 160).

Fixpoint lstrip (s : str) : str :=
  match s with
  | EmptyString => EmptyString
  | String c r => if isspace c then lstrip r else s
  end.

Fixpoint rstrip (s : str) : str :=
  match s with
  | EmptyString => EmptyString
  | String c r =>
      match rstrip r with
      | EmptyString => if isspace c then EmptyString else String c EmptyString
      | r' => String c r'
      end
  end.

(** [s.strip()] *)
Definition strip (s : str) : str := rstrip (lstrip s).

(** truthiness of a [str]: [bool(s)] *)
Definition truthy (s : str) : bool :=
  match s with EmptyString => false | _ => true end.

(** every character is white space (true of the empty string) *)
Fixpoint whitespace_only (s : str) : bool :=
  match s with
  | EmptyString => true
  | String c r => isspace c && whitespace_only r
  end.

(** [l[start:]] for a list and any integer [start] *)
Definition slice_from {A} (start : Z) (l : list A) : list A :=
  let len := Z.of_nat (length l) in
  let start' := if start <? 0 then Z.max 0 (start + len) else start in
  drop (Z.to_nat start') l.

(** The [n] most recent entries of a list. *)
Definition keep_last {A} (n : nat) (l : list A) : list A :=
  drop (length l - n)%nat l.

(** [len(l)] *)
Definition len {A} (l : list A) : Z := Z.of_nat (length l).

Fixpoint has_slash (p : str) : bool :=
  match p with
  | EmptyString => false
  | String c r => Ascii.eqb c "/" || has_slash r
  end.

(** [os.path.basename] (POSIX): what follows the last slash *)
Fixpoint basename (p : str) : str :=
  match p with
  | EmptyString => EmptyString
  | String c r =>
      if has_slash r then basename r
      else if Ascii.eqb c "/" then r else p
  end.

(** [os.path.join(a, b)] for a relative [b] and a directory name [a]
    that does not end in a slash *)
Definition path_join (a b : str) : str := a +:+ "/" +:+ b.

(** [c.lower()] for one character below 256: the ASCII capitals and
    the Latin-1 capitals (all of 192..222 but the multiplication
    sign) move 32 up. *)
Definition lower_char (c : ascii) : ascii :=
  let n := Z.of_nat (nat_of_ascii c) in
  if ((65 <=? n) && (n <=? 90)) || ((192 <=? n) && (n <=? 214))
     || ((216 <=? n) && (n <=? 222))
  then ascii_of_nat (nat_of_ascii c + 32)
  else c.

(** [s.lower()] *)
Fixpoint lower (s : str) : str :=
  match s with
  | EmptyString => EmptyString
  | String c r => String (lower_char c) (lower r)
  end.

(** [s.startswith(prefix)] *)
Fixpoint startswith (prefix s : str) : bool :=
  match prefix, s with
  | EmptyString, _ => true
  | String _ _, EmptyString => false
  | String c p, String d r => Ascii.eqb c d && startswith p r
  end.

(** [needle in hay] for two strings *)
Fixpoint contains (needle hay : str) : bool :=
  startswith needle hay
  || match hay with
     | EmptyString => false
     | String _ r => contains needle r
     end.

End Py.

(** ** agent.py *)

Module Agent.
Import Py.

Definition AUDIO_DIR : str := "audio_files".

Definition SYSTEM_PROMPT : str :=
  "You are a helpful, concise voice assistant. Keep answers short (under 2 sentences) for spoken audio.".

(** A message dict [{"role": .., "content": ..}]. *)
Record Message := { role : str; content : str }.

(** A conversation dict. The two [_url] keys are absent until the
    [/api/process] route adds them to the dict it was handed. *)
Record Turn := {
  id : Z;
  user_text : str;
  ai_text : str;
  input_audio : str;
  output_audio : str;
  input_audio_url : option str;
  output_audio_url : option str
}.

Definition set_id (n : Z) (c : Turn) : Turn :=
  {| id := n; user_text := user_text c; ai_text := ai_text c;
     input_audio := input_audio c; output_audio := output_audio c;
     input_audio_url := input_audio_url c;
     output_audio_url := output_audio_url c |}.

(** The OpenAI client in use: the module's default one, or one built
    from a caller's key. *)
Inductive Client := DefaultClient | CustomClient (api_key : str).

(** The dict [validate_openai_key] returns: [{"valid": ..}], with an
    ["error"] key when the key is refused. *)
Record KeyCheck := { valid : bool; error : option str }.

(** [validate_openai_key]. [models_list api_key] is what building a
    client from the key and listing the models does: [None] when both
    return, [Some msg] when one raises an exception [e] with
    [str(e) = msg]. *)
Definition validate_openai_key (models_list : str → option str)
    (api_key : str) : KeyCheck :=
  match models_list api_key with
  | None => {| valid := true; error := None |}
  | Some error_msg =>
      if contains "authentication" (lower error_msg)
         || contains "api key" (lower error_msg)
      then {| valid := false; error := Some "Invalid API key" |}
      else {| valid := false;
              error := Some ("Validation failed: " +:+ error_msg) |}
  end.

(** The fields of a [VoiceAssistant]. *)
Record VoiceAssistant := {
  memory_size : Z;
  conversation_history : list Message;
  conversations : list Turn;
  use_context : bool;
  is_custom : bool;
  custom_openai_client : option str
}.

(** The audio directory: [None] when it does not exist, otherwise
    the files in it, by path. *)
Abbreviation Disk := (option (gmap string bytes)).

(** The session: the global [assistant] and the disk it writes to. *)
Record Session := { self : VoiceAssistant; disk : Disk }.

(** What the outside answers during one call ([None]: the call
    raises). [now] is [int(time.time() * 1000)]. *)
Record World := {
  now : Z;
  transcribe_file : bytes → option str;
  chat_completions : Client → list Message → option str;
  speak : str → option bytes
}.

Inductive exn :=
| IndexError            (* pop from empty list *)
| FileNotFoundError (path : str)
| ServiceError (service : str).

Inductive outcome (A : Type) :=
| Return (a : A)
| Raise (e : exn).
Arguments Return {A} a.
Arguments Raise {A} e.

(** State and exceptions: what was mutated before a [raise] stays
    mutated. *)
Definition M (A : Type) : Type := Session → outcome A * Session.

#[export] Instance M_ret : MRet M := λ A a s, (Return a, s).
#[export] Instance M_bind : MBind M := λ A B f m s,
  match m s with
  | (Return a, s') => f a s'
  | (Raise e, s') => (Raise e, s')
  end.

Definition raise {A} (e : exn) : M A := λ s, (Raise e, s).
Definition get_self : M VoiceAssistant := λ s, (Return (self s), s).
Definition get_disk : M Disk := λ s, (Return (disk s), s).
Definition put_self (a : VoiceAssistant) : M unit :=
  λ s, (Return tt, {| self := a; disk := disk s |}).
Definition put_disk (d : Disk) : M unit :=
  λ s, (Return tt, {| self := self s; disk := d |}).
Definition when (b : bool) (m : M unit) : M unit :=
  if b then m else mret tt.

(** attribute assignments [self.x = v] *)
Definition with_memory_size (v : Z) (a : VoiceAssistant) :=
  {| memory_size := v;
     conversation_history := conversation_history a;
     conversations := conversations a;
     use_context := use_context a; is_custom := is_custom a;
     custom_openai_client := custom_openai_client a |}.
Definition with_conversation_history (v : list Message)
    (a : VoiceAssistant) :=
  {| memory_size := memory_size a;
     conversation_history := v;
     conversations := conversations a;
     use_context := use_context a; is_custom := is_custom a;
     custom_openai_client := custom_openai_client a |}.
Definition with_conversations (v : list Turn) (a : VoiceAssistant) :=
  {| memory_size := memory_size a;
     conversation_history := conversation_history a;
     conversations := v;
     use_context := use_context a; is_custom := is_custom a;
     custom_openai_client := custom_openai_client a |}.
Definition with_use_context (v : bool) (a : VoiceAssistant) :=
  {| memory_size := memory_size a;
     conversation_history := conversation_history a;
     conversations := conversations a;
     use_context := v; is_custom := is_custom a;
     custom_openai_client := custom_openai_client a |}.
Definition with_is_custom (v : bool) (a : VoiceAssistant) :=
  {| memory_size := memory_size a;
     conversation_history := conversation_history a;
     conversations := conversations a;
     use_context := use_context a; is_custom := v;
     custom_openai_client := custom_openai_client a |}.
Definition with_custom_openai_client (v : option str)
    (a : VoiceAssistant) :=
  {| memory_size := memory_size a;
     conversation_history := conversation_history a;
     conversations := conversations a;
     use_context := use_context a; is_custom := is_custom a;
     custom_openai_client := v |}.

Definition update_self (f : VoiceAssistant → VoiceAssistant) : M unit :=
  a ← get_self; put_self (f a).

Definition set_memory_size_field v := update_self (with_memory_size v).
Definition set_conversation_history v :=
  update_self (with_conversation_history v).
Definition set_conversations v := update_self (with_conversations v).
Definition set_use_context_field v := update_self (with_use_context v).
Definition set_is_custom v := update_self (with_is_custom v).
Definition set_custom_openai_client v :=
  update_self (with_custom_openai_client v).

(** *** The disk *)

(** [os.path.exists(path)] for a path inside the audio directory *)
Definition os_path_exists (path : str) : M bool :=
  d ← get_disk;
  mret (match d with
        | Some files => bool_decide (is_Some (files !! path))
        | None => false
        end).

(** [os.remove(path)] *)
Definition os_remove (path : str) : M unit :=
  d ← get_disk;
  match d with
  | Some files =>
      if bool_decide (is_Some (files !! path))
      then put_disk (Some (delete path files))
      else raise (FileNotFoundError path)
  | None => raise (FileNotFoundError path)
  end.

(** [with open(path, "wb") as f: f.write(data)] *)
Definition write_file (path : str) (data : bytes) : M unit :=
  d ← get_disk;
  match d with
  | Some files => put_disk (Some (<[path := data]> files))
  | None => raise (FileNotFoundError path)
  end.

(** *** VoiceAssistant *)

(** [VoiceAssistant(memory_size)] *)
Definition init (memory_size : Z) : VoiceAssistant :=
  {| memory_size := memory_size;
     conversation_history := [];
     conversations := [];
     use_context := false;
     is_custom := false;
     custom_openai_client := None |}.

(** The [while] loop of [_trim_conversations]. [pending] is the value
    of [self.conversations] when the iteration starts; every
    iteration pops its head, so the loop is structural in it. *)
Fixpoint trim_loop (pending : list Turn) : M unit :=
  a ← get_self;
  if memory_size a <? len pending then
    match pending with
    | [] => raise IndexError
    | removed :: rest =>
        set_conversations rest;;
        e_in ← os_path_exists (input_audio removed);
        when e_in (os_remove (input_audio removed));;
        e_out ← os_path_exists (output_audio removed);
        when e_out (os_remove (output_audio removed));;
        trim_loop rest
    end
  else mret tt.

(** The history trimming shared by [_trim_conversations] and
    [get_ai_response]. *)
Definition trim_history : M unit :=
  a ← get_self;
  let max_messages := memory_size a * 2 in
  when (max_messages <? len (conversation_history a))
    (set_conversation_history
       (slice_from (- max_messages) (conversation_history a))).

Definition _trim_conversations : M unit :=
  a ← get_self;
  trim_loop (conversations a);;
  trim_history.

Definition set_memory_size (size : Z) (custom : bool)
    (api_key : option str) : M unit :=
  set_memory_size_field size;;
  set_is_custom custom;;
  (match api_key with
   | Some k =>
       if truthy k then set_custom_openai_client (Some k)
       else when (negb custom) (set_custom_openai_client None)
   | None => when (negb custom) (set_custom_openai_client None)
   end);;
  _trim_conversations.

Definition reset_custom_key : M unit :=
  set_custom_openai_client None;;
  set_is_custom false.

Definition set_use_context (v : bool) : M unit :=
  set_use_context_field v.

(** [get_settings]: memory_size, use_context, is_custom *)
Definition get_settings : M (Z * bool * bool) :=
  a ← get_self;
  mret (memory_size a, use_context a, is_custom a).

Definition transcribe_audio (w : World) (audio_data : bytes) : M str :=
  match transcribe_file w audio_data with
  | Some transcript => mret transcript
  | None => raise (ServiceError "deepgram.listen")
  end.

(** The [messages] list that [get_ai_response] builds for [text]. *)
Definition build_messages (a : VoiceAssistant) (text : str)
    : list Message :=
  let messages := [ {| role := "system"; content := SYSTEM_PROMPT |} ] in
  let messages :=
    if use_context a then messages ++ conversation_history a
    else messages in
  messages ++ [ {| role := "user"; content := text |} ].

Definition get_ai_response (w : World) (text : str) : M str :=
  a ← get_self;
  let client := match custom_openai_client a with
                | Some k => CustomClient k
                | None => DefaultClient
                end in
  let messages := build_messages a text in
  match chat_completions w client messages with
  | None => raise (ServiceError "openai.chat")
  | Some reply =>
      set_conversation_history
        (conversation_history a
           ++ [ {| role := "user"; content := text |} ]
           ++ [ {| role := "assistant"; content := reply |} ]);;
      trim_history;;
      mret reply
  end.

Definition text_to_speech (w : World) (text : str) : M bytes :=
  match speak w text with
  | Some audio_bytes => mret audio_bytes
  | None => raise (ServiceError "deepgram.speak")
  end.

Definition _renumber_conversations : M unit :=
  a ← get_self;
  set_conversations
    (imap (λ i conv, set_id (Z.of_nat i + 1) conv) (conversations a)).

(** What [process_conversation] returns: the error dict, or the
    conversation dict. *)
Inductive result :=
| ErrorDict (error : str)
| ConversationData (c : Turn).

Definition input_path_of (timestamp : Z) : str :=
  path_join AUDIO_DIR ("input_" +:+ pretty timestamp +:+ ".wav").
Definition output_path_of (timestamp : Z) : str :=
  path_join AUDIO_DIR ("output_" +:+ pretty timestamp +:+ ".mp3").

Definition process_conversation (w : World) (audio_data : bytes)
    : M result :=
  a ← get_self;
  let conversation_id := len (conversations a) + 1 in
  let timestamp := now w in
  let input_path := input_path_of timestamp in
  let output_path := output_path_of timestamp in
  write_file input_path audio_data;;
  user_text ← transcribe_audio w audio_data;
  if negb (truthy (strip user_text)) then
    os_remove input_path;;
    mret (ErrorDict "No speech detected")
  else
    ai_response ← get_ai_response w user_text;
    tts_audio ← text_to_speech w ai_response;
    write_file output_path tts_audio;;
    let conversation_data :=
      {| id := conversation_id; user_text := user_text;
         ai_text := ai_response; input_audio := input_path;
         output_audio := output_path;
         input_audio_url := None; output_audio_url := None |} in
    a ← get_self;
    set_conversations (conversations a ++ [conversation_data]);;
    _trim_conversations;;
    _renumber_conversations;;
    (* the dict returned is the object that was appended: when it is
       still in the list it is the last one, and was renumbered *)
    a ← get_self;
    mret (ConversationData
            (default conversation_data (last (conversations a)))).

(** [os.path.exists(AUDIO_DIR)] *)
Definition audio_dir_exists : M bool :=
  d ← get_disk; mret (bool_decide (is_Some d)).

(** [shutil.rmtree(AUDIO_DIR)] *)
Definition rmtree_audio_dir : M unit :=
  d ← get_disk;
  match d with
  | Some _ => put_disk None
  | None => raise (FileNotFoundError AUDIO_DIR)
  end.

(** [os.makedirs(AUDIO_DIR, exist_ok=True)] *)
Definition makedirs_audio_dir : M unit :=
  d ← get_disk;
  match d with
  | Some _ => mret tt
  | None => put_disk (Some ∅)
  end.

Definition clear_all : M unit :=
  set_conversation_history [];;
  set_conversations [];;
  e ← audio_dir_exists;
  when e rmtree_audio_dir;;
  makedirs_audio_dir.

Definition get_conversations : M (list Turn) :=
  a ← get_self; mret (conversations a).

(** [get_stats]: count, limit *)
Definition get_stats : M (Z * Z) :=
  a ← get_self; mret (len (conversations a), memory_size a).

End Agent.

(** ** server.py *)

Module Server.
Import Py Agent.

(** The pydantic model of [/api/memory-size]. *)
Record MemorySizeRequest := {
  size : Z;
  req_is_custom : bool;
  api_key : option str
}.

(** The JSON bodies the routes answer with. *)
Inductive Body :=
| JsonError (error : str)
| JsonTurn (c : Turn)
| JsonTurns (cs : list Turn)
| JsonStats (count limit : Z)
| JsonSettings (memory_size : Z) (use_context is_custom : bool)
| JsonContext (status : str) (use_context : bool)
| JsonMemory (status : str) (memory_size : Z) (is_custom : bool)
| JsonMessage (status message : str)
| Detail (detail : str)          (* HTTPException(detail=...) *)
| DetailOf (e : exn)             (* HTTPException(detail=str(e)) *)
| InternalServerError (e : exn). (* exception no route caught *)

Record Response := { status_code : Z; body : Body }.

Definition Route : Type := Session → Response * Session.

(** A route with no [try]: the framework answers 500 when the call
    raises. *)
Definition respond {A} (m : M A) (k : A → Response) : Route := λ s,
  match m s with
  | (Return a, s') => (k a, s')
  | (Raise e, s') =>
      ({| status_code := 500; body := InternalServerError e |}, s')
  end.

(** The two [_url] keys the routes add to a conversation dict. *)
Definition add_urls (c : Turn) : Turn :=
  {| id := id c; user_text := user_text c; ai_text := ai_text c;
     input_audio := input_audio c; output_audio := output_audio c;
     input_audio_url := Some ("/audio/" +:+ basename (input_audio c));
     output_audio_url := Some ("/audio/" +:+ basename (output_audio c)) |}.

(** [POST /api/process] *)
Definition process_audio (w : World) (audio_data : bytes) : Route := λ s,
  match process_conversation w audio_data s with
  | (Return (ErrorDict e), s') =>
      ({| status_code := 400; body := JsonError e |}, s')
  | (Return (ConversationData c), s') =>
      (* [result] is the dict stored last in the window (when it
         was not evicted): the keys are added to that object *)
      let cs := conversations (self s') in
      match set_conversations (alter add_urls (pred (length cs)) cs) s' with
      | (_, s'') =>
          ({| status_code := 200; body := JsonTurn (add_urls c) |}, s'')
      end
  | (Raise e, s') =>
      ({| status_code := 500; body := DetailOf e |}, s')
  end.

(** [GET /api/conversations] *)
Definition get_conversations : Route :=
  respond Agent.get_conversations
    (λ cs, {| status_code := 200; body := JsonTurns (add_urls <$> cs) |}).

(** [GET /api/stats] *)
Definition get_stats : Route :=
  respond Agent.get_stats
    (λ st, {| status_code := 200; body := JsonStats st.1 st.2 |}).

(** [GET /api/settings] *)
Definition get_settings : Route :=
  respond Agent.get_settings
    (λ st, {| status_code := 200;
              body := JsonSettings st.1.1 st.1.2 st.2 |}).

(** [POST /api/settings] *)
Definition update_settings (use_context : bool) : Route :=
  respond (Agent.set_use_context use_context)
    (λ _, {| status_code := 200; body := JsonContext "ok" use_context |}).

(** The validation of [POST /api/memory-size]: [Some detail] when
    the request is refused. *)
Definition validate_size (request : MemorySizeRequest) : option str :=
  if req_is_custom request then
    if (size request <? 1) || (100 <? size request)
    then Some "Custom size must be between 1 and 100"
    else None
  else
    if negb (bool_decide (size request ∈ [5; 10; 20]))
    then Some "Memory size must be 5, 10, or 20"
    else None.

(** [POST /api/memory-size] *)
Definition set_memory_size (request : MemorySizeRequest) : Route :=
  match validate_size request with
  | Some detail => λ s, ({| status_code := 400; body := Detail detail |}, s)
  | None =>
      respond
        (Agent.set_memory_size (size request) (req_is_custom request)
           (api_key request))
        (λ _, {| status_code := 200;
                 body := JsonMemory "ok" (size request)
                           (req_is_custom request) |})
  end.

(** [POST /api/reset-custom-key] *)
Definition reset_custom_key : Route :=
  respond
    (Agent.reset_custom_key;; Agent.set_memory_size 5 false None)
    (λ _, {| status_code := 200;
             body := JsonMessage "ok" "Custom API key removed. Your key was only stored temporarily and is now gone from the system." |}).

(** [POST /api/clear] *)
Definition clear_conversations : Route :=
  respond Agent.clear_all
    (λ _, {| status_code := 200;
             body := JsonMessage "ok" "All conversations cleared" |}).

(** The requests that read or change the session.
    ([/api/validate-key] does neither.) *)
Inductive Request :=
| GetConversations
| GetStats
| GetSettings
| PostProcess (audio_data : bytes)
| PostSettings (use_context : bool)
| PostMemorySize (request : MemorySizeRequest)
| PostResetCustomKey
| PostClear.

Definition handle (w : World) (r : Request) : Route :=
  match r with
  | GetConversations => get_conversations
  | GetStats => get_stats
  | GetSettings => get_settings
  | PostProcess audio_data => process_audio w audio_data
  | PostSettings use_context => update_settings use_context
  | PostMemorySize request => set_memory_size request
  | PostResetCustomKey => reset_custom_key
  | PostClear => clear_conversations
  end.

(** The session when the server starts: [VoiceAssistant(memory_size=5)]
    and the audio directory, which [agent.py] creates on import,
    with whatever files it already holds. *)
Definition initial (files : gmap string bytes) : Session :=
  {| self := init 5; disk := Some files |}.

(** The sessions the server can be in. *)
Inductive reachable : Session → Prop :=
| reach_initial files : reachable (initial files)
| reach_step w r s : reachable s → reachable (handle w r s).2.

(** The session after a sequence of requests, each with the world it
    was served in. *)
Fixpoint run (trace : list (World * Request)) (s : Session) : Session :=
  match trace with
  | [] => s
  | (w, r) :: rest => run rest (handle w r s).2
  end.

End Server.

(** ** Vocabulary of the statements *)

Module Window.
Import Py Agent Server.

(** The disk once the two audio files of a turn are removed (those
    of them that exist). *)
Definition unlink (d : Disk) (c : Turn) : Disk :=
  (λ files, delete (output_audio c) (delete (input_audio c) files)) <$> d.

(** How many turns a window holds beyond the capacity. *)
Definition excess (capacity : Z) (cs : list Turn) : nat :=
  Z.to_nat (len cs - capacity).

(** The ids [i + 1] that [_renumber_conversations] writes. *)
Definition renumber (cs : list Turn) : list Turn :=
  imap (λ i conv, set_id (Z.of_nat i + 1) conv) cs.

(** The history after the [if len(..) > max_messages] of the code. *)
Definition trimmed (capacity : Z) (h : list Message) : list Message :=
  if capacity * 2 <? len h then slice_from (- (capacity * 2)) h else h.

(** A turn without its id and without the keys the route adds. *)
Definition payload (c : Turn) : str * str * str * str :=
  (user_text c, ai_text c, input_audio c, output_audio c).

(** The ids are 1, 2, .., N in list order. *)
Definition dense_ids (cs : list Turn) : Prop :=
  id <$> cs = (λ i, Z.of_nat i + 1) <$> seq 0 (length cs).

Definition user_message (text : str) : Message :=
  {| role := "user"; content := text |}.
Definition assistant_message (text : str) : Message :=
  {| role := "assistant"; content := text |}.
Definition system_message : Message :=
  {| role := "system"; content := SYSTEM_PROMPT |}.

(** The client [get_ai_response] picks. *)
Definition client_of (a : VoiceAssistant) : Client :=
  match custom_openai_client a with
  | Some k => CustomClient k
  | None => DefaultClient
  end.

(** The conversation dict [process_conversation] builds. *)
Definition new_turn (w : World) (a : VoiceAssistant)
    (user_text ai_response : str) : Turn :=
  {| id := len (conversations a) + 1;
     user_text := user_text;
     ai_text := ai_response;
     input_audio := input_path_of (now w);
     output_audio := output_path_of (now w);
     input_audio_url := None;
     output_audio_url := None |}.

(** The client after [set_memory_size(_, custom, api_key)]. *)
Definition client_after (custom : bool) (api_key : option str)
    (old : option str) : option str :=
  match api_key with
  | Some k => if truthy k then Some k else if custom then old else None
  | None => if custom then old else None
  end.


(** The same for the message history, whose capacity is twice the
    memory size. *)
Definition history_step (s s' : Session) (new : list Message) : Prop :=
  conversation_history (self s')
  = keep_last (Z.to_nat (2 * memory_size (self s')))
      (conversation_history (self s) ++ new).

(** The sizes the specification allows: a custom size from 1 to 100,
    a preset size among 5, 10 and 20. *)
Definition size_allowed (request : MemorySizeRequest) : Prop :=
  if req_is_custom request then 1 ≤ size request ≤ 100
  else size request = 5 ∨ size request = 10 ∨ size request = 20.

(** What every session the server reaches satisfies. *)
Record invariant (s : Session) : Prop := {
  inv_capacity : 1 ≤ memory_size (self s) ≤ 100;
  inv_window : len (conversations (self s)) ≤ memory_size (self s);
  inv_history :
    len (conversation_history (self s)) ≤ 2 * memory_size (self s);
  inv_disk : is_Some (disk s)
}.

End Window.

(** ** Sample worlds and sessions *)

Module Sample.
Import Py Agent Server.

(** A world whose clock reads [t], where the transcript is
    [transcript] and the model answers [reply]. *)
Definition world (t : Z) (transcript reply : str) : World :=
  {| now := t;
     transcribe_file := λ _, Some transcript;
     chat_completions := λ _ _, Some reply;
     speak := λ _, Some [] |}.

Definition turn (t : Z) : World * Request :=
  (world t "hello" "hi there", PostProcess []).

(** Three turns in a fresh session. *)
Definition three_turns : Session :=
  run [turn 1700000000001; turn 1700000000002; turn 1700000000003]
    (initial ∅).

(** Five turns: the default window is full. *)
Definition five_turns : Session :=
  run [turn 1700000000004; turn 1700000000005] three_turns.

Definition shrink_to (n : Z) : MemorySizeRequest :=
  {| size := n; req_is_custom := true; api_key := None |}.

(** The assistant of [five_turns] with its capacity lowered to 3,
    before any trimming. *)
Definition over_capacity : VoiceAssistant :=
  with_memory_size 3 (self five_turns).

(** The files of [five_turns]. *)
Definition five_files : gmap string bytes := default ∅ (disk five_turns).

(** A sixth request, in a new millisecond. *)
Definition sixth : World := world 1700000000006 "bye" "goodbye".

(** A preset request that carries a key. *)
Definition preset_with_key : MemorySizeRequest :=
  {| size := 10; req_is_custom := false; api_key := Some "sk-sample" |}.

(** A world where the speech synthesis raises, and one where the
    transcription raises. *)
Definition mute : World :=
  {| now := 1700000000007;
     transcribe_file := λ _, Some "hello";
     chat_completions := λ _ _, Some "hi there";
     speak := λ _, None |}.
Definition deaf : World :=
  {| now := 1700000000008;
     transcribe_file := λ _, None;
     chat_completions := λ _ _, Some "hi there";
     speak := λ _, Some [] |}.

(** [three_turns] after a request whose speech synthesis raised. *)
Definition after_mute : Session :=
  run [(mute, PostProcess [])] three_turns.

(** [three_turns] after the custom size 2 was accepted: the two turns
    left carry the ids 2 and 3. *)
Definition stale_ids : Session :=
  run [(sixth, PostMemorySize (shrink_to 2))] three_turns.

End Sample.

(** ** Vocabulary of the further properties *)

Module Files.
Import Py Agent Server.

(** The paths of the audio files of some turns. *)
Definition audio_paths (cs : list Turn) : list str :=
  cs ≫= λ c, [input_audio c; output_audio c].

(** The turns of a window that stay when one more turn comes in: the
    [capacity - 1] most recent. *)
Definition staying (capacity : Z) (cs : list Turn) : list Turn :=
  keep_last (Z.to_nat capacity - 1) cs.

(** The turns that make room for it: those before. *)
Definition making_room (capacity : Z) (cs : list Turn) : list Turn :=
  take (length cs - (Z.to_nat capacity - 1))%nat cs.

(** The turn [/api/process] stores and answers with, once renumbered
    and given its URLs, when [kept] turns stay before it. *)
Definition stored_turn (w : World) (kept : list Turn)
    (user_text ai_response : str) : Turn :=
  {| id := len kept + 1;
     user_text := user_text;
     ai_text := ai_response;
     input_audio := input_path_of (now w);
     output_audio := output_path_of (now w);
     input_audio_url :=
       Some ("/audio/" +:+ basename (input_path_of (now w)));
     output_audio_url :=
       Some ("/audio/" +:+ basename (output_path_of (now w))) |}.

End Files.

(** * Properties *)

Import Py Agent Server Window.

(** ** Strings and slices *)

Section Primitives.

Lemma lstrip_whitespace_only s :
  whitespace_only s = true → lstrip s = EmptyString.
Proof.
  induction s as [|c r IH]; simpl; [done|].
  intros [Hc Hr]%andb_prop. rewrite Hc. auto.
Qed.

Lemma lstrip_keeps_nonspace s :
  whitespace_only s = false → whitespace_only (lstrip s) = false.
Proof.
  induction s as [|c r IH]; simpl; [done|].
  destruct (isspace c) eqn:Hc; simpl; [auto|].
  by rewrite Hc.
Qed.

Lemma rstrip_empty_iff s :
  rstrip s = EmptyString ↔ whitespace_only s = true.
Proof.
  induction s as [|c r IH]; simpl; [done|].
  destruct (rstrip r) eqn:Hr.
  - destruct (isspace c); simpl; [|split; done].
    split; [intros _; by apply IH | done].
  - split; [done|].
    intros [_ Hw]%andb_prop. apply IH in Hw. done.
Qed.

(** [not s.strip()] holds exactly of the strings made of white space
    only. *)
Lemma strip_falsy_iff s :
  truthy (strip s) = false ↔ whitespace_only s = true.
Proof.
  unfold strip. split.
  - intros H. destruct (whitespace_only s) eqn:Hw; [done|].
    apply lstrip_keeps_nonspace in Hw.
    destruct (rstrip (lstrip s)) eqn:Hr; [|done].
    apply rstrip_empty_iff in Hr. congruence.
  - intros Hw. by rewrite (lstrip_whitespace_only _ Hw).
Qed.

Context {A : Type}.
Implicit Types l : list A.

Lemma length_keep_last n l : length (keep_last n l) = Nat.min n (length l).
Proof. unfold keep_last. rewrite length_drop. lia. Qed.


Lemma keep_last_all n l : (length l ≤ n)%nat → keep_last n l = l.
Proof.
  intros H. unfold keep_last.
  replace (length l - n)%nat with 0%nat by lia. done.
Qed.

(** [l[-m:]] keeps the last [m] entries when [m] is positive. *)
Lemma slice_from_neg_keep_last (m : Z) l :
  0 < m → slice_from (- m) l = keep_last (Z.to_nat m) l.
Proof.
  intros Hm. unfold slice_from, keep_last.
  destruct (Z.ltb_spec (- m) 0); [|lia].
  f_equal. lia.
Qed.

(** [l[-0:]] is [l[0:]]: the whole list. *)
Lemma slice_from_neg_zero l : slice_from (- 0) l = l.
Proof. done. Qed.

End Primitives.

(** ** Windows: eviction and renumbering *)

Section Windows.

Implicit Types (cs : list Turn) (m : Z).

Lemma drop_excess m cs :
  0 ≤ m → drop (excess m cs) cs = keep_last (Z.to_nat m) cs.
Proof.
  intros Hm. unfold excess, keep_last, len. f_equal. lia.
Qed.

Lemma len_keep_last {A} (n : nat) (l : list A) :
  len (keep_last n l) = Z.min (Z.of_nat n) (len l).
Proof. unfold len. rewrite length_keep_last. lia. Qed.


Lemma keep_last_snoc_last {A} (n : nat) (l : list A) (x : A) :
  (0 < n)%nat → last (keep_last n (l ++ [x])) = Some x.
Proof.
  intros Hn. unfold keep_last. rewrite length_app. simpl.
  rewrite drop_app_le by lia. apply last_snoc.
Qed.

Lemma keep_last_app_suffix {A} (n : nat) (l1 l2 : list A) :
  (length l2 ≤ n)%nat → l2 `suffix_of` keep_last n (l1 ++ l2).
Proof.
  intros Hn. unfold keep_last. rewrite length_app.
  rewrite drop_app_le by lia. by eexists.
Qed.

Lemma last_drop_snoc {A} (k : nat) (l : list A) (x z : A) :
  last (drop k (l ++ [x])) = Some z → z = x.
Proof.
  intros [l' Hl']%last_Some.
  pose proof (take_drop k (l ++ [x])) as Htd. rewrite Hl' in Htd.
  rewrite app_assoc in Htd. by apply app_inj_tail in Htd as [_ ->].
Qed.

Lemma length_renumber cs : length (renumber cs) = length cs.
Proof. apply length_imap. Qed.

Lemma payload_renumber cs : payload <$> renumber cs = payload <$> cs.
Proof.
  unfold renumber. rewrite fmap_imap.
  rewrite <- (imap_const payload cs). by apply imap_ext.
Qed.

(** After [_renumber_conversations] the ids are 1..N in list order. *)
Lemma renumber_dense cs : dense_ids (renumber cs).
Proof.
  unfold dense_ids, renumber. rewrite fmap_imap, length_imap.
  apply list_eq. intros i.
  rewrite list_lookup_imap, list_lookup_fmap.
  destruct (cs !! i) as [c|] eqn:Hc; simpl.
  - apply lookup_lt_Some in Hc. by rewrite lookup_seq_lt.
  - apply lookup_ge_None in Hc. by rewrite lookup_seq_ge.
Qed.

(** The dict [process_conversation] returns is the one it built, up
    to the id it was given by the renumbering. *)
Lemma payload_returned (k : nat) cs (c : Turn) :
  payload (default c (last (renumber (drop k (cs ++ [c])))))
  = payload c.
Proof.
  destruct (last (renumber _)) as [y|] eqn:Hy; simpl; [|done].
  assert (last (payload <$> renumber (drop k (cs ++ [c])))
          = Some (payload y)) as Hp by by rewrite fmap_last, Hy.
  rewrite payload_renumber, fmap_last in Hp.
  destruct (last (drop k (cs ++ [c]))) as [z|] eqn:Hz; [|done].
  apply last_drop_snoc in Hz as ->. simpl in Hp. congruence.
Qed.


Lemma id_add_urls_last cs :
  id <$> alter add_urls (pred (length cs)) cs = id <$> cs.
Proof.
  rewrite (list_fmap_alter id add_urls (λ x, x)).
  - by apply list_alter_id.
  - by apply Forall_forall.
Qed.

End Windows.

(** ** The methods of [VoiceAssistant], as equations *)

Ltac run := unfold mbind, M_bind, mret, M_ret, update_self, get_self,
  get_disk, put_self, put_disk, raise, when; simpl.

Ltac exec :=
  repeat progress
    (unfold mbind, M_bind, mret, M_ret, update_self, get_self, get_disk,
       put_self, put_disk, raise, when;
     cbn [self disk]).

Ltac ltb_false :=
  match goal with
  | |- context [?x <? ?y] =>
      rewrite (proj2 (Z.ltb_ge x y))
        by (unfold len in *; simpl length in *; lia)
  end.

Ltac ltb_true :=
  match goal with
  | |- context [?x <? ?y] =>
      rewrite (proj2 (Z.ltb_lt x y))
        by (unfold len in *; simpl length in *; lia)
  end.

Section Methods.

Implicit Types (a : VoiceAssistant) (d : Disk) (s : Session).

Lemma with_conversations_id a : with_conversations (conversations a) a = a.
Proof. by destruct a. Qed.

Lemma with_conversation_history_id a :
  with_conversation_history (conversation_history a) a = a.
Proof. by destruct a. Qed.

(** [if os.path.exists(p): os.remove(p)] *)
Lemma remove_if_exists (p : str) s (k : M unit) :
  (e ← os_path_exists p; when e (os_remove p);; k) s
  = k {| self := self s; disk := delete p <$> disk s |}.
Proof.
  unfold os_path_exists, os_remove. run.
  destruct s as [a [files|]]; simpl; [|done].
  case_bool_decide as Hp; simpl.
  - by rewrite bool_decide_true.
  - rewrite delete_id; [done|].
    by apply eq_None_not_Some.
Qed.

Lemma unlink_all_is_Some d (cs : list Turn) :
  is_Some d → is_Some (foldl unlink d cs).
Proof.
  revert d. induction cs as [|c cs IH]; intros d Hd; simpl; [done|].
  apply IH. destruct Hd as [files ->]. simpl. eauto.
Qed.

Lemma trim_loop_spec pending : ∀ a d,
  0 ≤ memory_size a →
  conversations a = pending →
  trim_loop pending {| self := a; disk := d |}
  = (Return tt,
     {| self := with_conversations
                  (drop (excess (memory_size a) pending) pending) a;
        disk := foldl unlink d
                  (take (excess (memory_size a) pending) pending) |}).
Proof.
  induction pending as [|c rest IH]; intros a d Hm Hc.
  - cbn [trim_loop]. run. ltb_false.
    rewrite drop_nil, take_nil. cbn [foldl].
    rewrite <- Hc, with_conversations_id. done.
  - cbn [trim_loop]. unfold mbind at 1, M_bind at 1, get_self at 1.
    cbn [self].
    destruct (Z.ltb_spec (memory_size a) (len (c :: rest))) as [Hlt|Hge].
    + assert (excess (memory_size a) (c :: rest)
              = S (excess (memory_size a) rest)) as ->.
      { unfold excess, len in *. simpl length in *. lia. }
      unfold set_conversations at 1.
      unfold mbind at 1, M_bind at 1, update_self at 1.
      unfold mbind at 1, M_bind at 1, get_self at 1, put_self at 1.
      cbn [self disk].
      rewrite remove_if_exists, remove_if_exists. cbn [self disk].
      rewrite IH; [|done|done]. simpl.
      do 2 f_equal. destruct d; simpl; [|done].
      done.
    + assert (excess (memory_size a) (c :: rest) = 0%nat) as ->.
      { unfold excess. lia. }
      run. rewrite <- Hc, with_conversations_id. done.
Qed.

Lemma trim_history_spec a d :
  trim_history {| self := a; disk := d |}
  = (Return tt,
     {| self := with_conversation_history
                  (trimmed (memory_size a) (conversation_history a)) a;
        disk := d |}).
Proof.
  unfold trim_history, trimmed, set_conversation_history. run.
  destruct (_ <? _); simpl; [done|].
  by rewrite with_conversation_history_id.
Qed.

Lemma _trim_conversations_spec a d :
  0 ≤ memory_size a →
  _trim_conversations {| self := a; disk := d |}
  = (Return tt,
     {| self :=
          {| memory_size := memory_size a;
             conversation_history :=
               trimmed (memory_size a) (conversation_history a);
             conversations :=
               drop (excess (memory_size a) (conversations a))
                 (conversations a);
             use_context := use_context a;
             is_custom := is_custom a;
             custom_openai_client := custom_openai_client a |};
        disk := foldl unlink d
                  (take (excess (memory_size a) (conversations a))
                     (conversations a)) |}).
Proof.
  intros Hm. unfold _trim_conversations.
  unfold mbind at 1, M_bind at 1, get_self at 1. cbn [self].
  unfold mbind, M_bind. rewrite trim_loop_spec by done.
  rewrite trim_history_spec. done.
Qed.

Lemma set_memory_size_spec size custom api_key a d :
  0 ≤ size →
  Agent.set_memory_size size custom api_key {| self := a; disk := d |}
  = (Return tt,
     {| self :=
          {| memory_size := size;
             conversation_history :=
               trimmed size (conversation_history a);
             conversations :=
               drop (excess size (conversations a)) (conversations a);
             use_context := use_context a;
             is_custom := custom;
             custom_openai_client :=
               client_after custom api_key (custom_openai_client a) |};
        disk := foldl unlink d
                  (take (excess size (conversations a))
                     (conversations a)) |}).
Proof.
  intros Hsz. unfold Agent.set_memory_size, set_memory_size_field,
    set_is_custom, set_custom_openai_client.
  destruct api_key as [[|c k]|], custom; cbn [truthy negb];
    run; rewrite _trim_conversations_spec by done; done.
Qed.

Lemma get_ai_response_spec w text a d :
  get_ai_response w text {| self := a; disk := d |}
  = match chat_completions w (client_of a) (build_messages a text) with
    | Some reply =>
        (Return reply,
         {| self := with_conversation_history
                      (trimmed (memory_size a)
                         (conversation_history a
                            ++ [user_message text; assistant_message reply]))
                      a;
            disk := d |})
    | None =>
        (Raise (ServiceError "openai.chat"), {| self := a; disk := d |})
    end.
Proof.
  unfold get_ai_response, client_of.
  unfold mbind at 1, M_bind at 1, get_self at 1. cbn [self].
  destruct (chat_completions w _ _) as [reply|]; [|done].
  unfold set_conversation_history. exec.
  rewrite trim_history_spec. done.
Qed.

Lemma trimmed_keep_last m (h : list Message) :
  1 ≤ m → trimmed m h = keep_last (Z.to_nat (2 * m)) h.
Proof.
  intros Hm. unfold trimmed.
  destruct (Z.ltb_spec (m * 2) (len h)) as [Hlt|Hge].
  - rewrite slice_from_neg_keep_last by lia. f_equal. lia.
  - rewrite keep_last_all; [done|]. unfold len in Hge. lia.
Qed.

Lemma trimmed_suffix m (h : list Message) :
  0 ≤ m → trimmed m h `suffix_of` h.
Proof.
  intros Hm. unfold trimmed, slice_from.
  destruct (_ <? len h); [apply suffix_drop | done].
Qed.

Lemma len_trimmed m (h : list Message) :
  1 ≤ m → len (trimmed m h) = Z.min (2 * m) (len h).
Proof.
  intros Hm. rewrite trimmed_keep_last by done.
  unfold len. rewrite length_keep_last. lia.
Qed.

Lemma trimmed_idem m (h : list Message) :
  0 ≤ m → trimmed m (trimmed m h) = trimmed m h.
Proof.
  intros Hm. unfold trimmed at 1.
  destruct (Z.ltb_spec (m * 2) (len (trimmed m h))) as [Hlt|Hge]; [|done].
  destruct (Z.eq_dec m 0) as [->|Hne]; [done|].
  rewrite len_trimmed in Hlt by lia. lia.
Qed.

Section ProcessConversation.

Variables (w : World) (audio_data : bytes) (a : VoiceAssistant).
Variable files : gmap string bytes.

Let input_path := input_path_of (now w).
Let output_path := output_path_of (now w).
Let s := {| self := a; disk := Some files |}.

Lemma process_conversation_no_directory :
  process_conversation w audio_data {| self := a; disk := None |}
  = (Raise (FileNotFoundError input_path), {| self := a; disk := None |}).
Proof. done. Qed.

Lemma process_conversation_transcription_fails :
  transcribe_file w audio_data = None →
  process_conversation w audio_data s
  = (Raise (ServiceError "deepgram.listen"),
     {| self := a; disk := Some (<[input_path := audio_data]> files) |}).
Proof.
  intros Ht. unfold s, input_path.
  unfold process_conversation, write_file, transcribe_audio.
  exec. by rewrite Ht.
Qed.

Lemma process_conversation_no_speech user_text :
  transcribe_file w audio_data = Some user_text →
  whitespace_only user_text = true →
  process_conversation w audio_data s
  = (Return (ErrorDict "No speech detected"),
     {| self := a; disk := Some (delete input_path files) |}).
Proof.
  intros Ht Hw%strip_falsy_iff. unfold s, input_path.
  unfold process_conversation, write_file, transcribe_audio, os_remove.
  exec. rewrite Ht. exec. rewrite Hw. cbn [negb]. exec.
  rewrite bool_decide_true.
  - by rewrite delete_insert_eq.
  - rewrite lookup_insert_eq. eauto.
Qed.

Section Speech.

Variable user_text : str.
Hypothesis Htranscript : transcribe_file w audio_data = Some user_text.
Hypothesis Hspeech : whitespace_only user_text = false.

Lemma process_conversation_chat_fails :
  chat_completions w (client_of a) (build_messages a user_text) = None →
  process_conversation w audio_data s
  = (Raise (ServiceError "openai.chat"),
     {| self := a; disk := Some (<[input_path := audio_data]> files) |}).
Proof.
  intros Hc. unfold s, input_path.
  assert (truthy (strip user_text) = true) as Hw.
  { destruct (truthy _) eqn:E; [done|].
    apply strip_falsy_iff in E. congruence. }
  unfold process_conversation, write_file, transcribe_audio.
  exec. rewrite Htranscript. exec. rewrite Hw. cbn [negb]. exec.
  rewrite get_ai_response_spec, Hc. done.
Qed.

Variable reply : str.
Hypothesis Hreply :
  chat_completions w (client_of a) (build_messages a user_text)
  = Some reply.

Let history' :=
  trimmed (memory_size a)
    (conversation_history a
       ++ [user_message user_text; assistant_message reply]).

Lemma process_conversation_speech_fails :
  speak w reply = None →
  process_conversation w audio_data s
  = (Raise (ServiceError "deepgram.speak"),
     {| self := with_conversation_history history' a;
        disk := Some (<[input_path := audio_data]> files) |}).
Proof.
  intros Hs. unfold s, input_path, history'.
  assert (truthy (strip user_text) = true) as Hw.
  { destruct (truthy _) eqn:E; [done|].
    apply strip_falsy_iff in E. congruence. }
  unfold process_conversation, write_file, transcribe_audio, text_to_speech.
  exec. rewrite Htranscript. exec. rewrite Hw. cbn [negb]. exec.
  rewrite get_ai_response_spec, Hreply. rewrite Hs. done.
Qed.

Variable tts_audio : bytes.
Hypothesis Htts : speak w reply = Some tts_audio.
Hypothesis Hcapacity : 0 ≤ memory_size a.

Let appended := conversations a ++ [new_turn w a user_text reply].
Let k := excess (memory_size a) appended.

Lemma process_conversation_success :
  process_conversation w audio_data s
  = (Return (ConversationData
               (default (new_turn w a user_text reply)
                  (last (renumber (drop k appended))))),
     {| self :=
          {| memory_size := memory_size a;
             conversation_history := history';
             conversations := renumber (drop k appended);
             use_context := use_context a;
             is_custom := is_custom a;
             custom_openai_client := custom_openai_client a |};
        disk :=
          foldl unlink
            (Some (<[output_path := tts_audio]>
                     (<[input_path := audio_data]> files)))
            (take k appended) |}).
Proof.
  unfold s, input_path, output_path, history', k, appended.
  assert (truthy (strip user_text) = true) as Hw.
  { destruct (truthy _) eqn:E; [done|].
    apply strip_falsy_iff in E. congruence. }
  unfold process_conversation, write_file, transcribe_audio, text_to_speech.
  exec. rewrite Htranscript. exec. rewrite Hw. cbn [negb]. exec.
  rewrite get_ai_response_spec, Hreply. rewrite Htts.
  unfold set_conversations. exec.
  rewrite _trim_conversations_spec by done.
  unfold _renumber_conversations, set_conversations. exec.
  cbn [memory_size conversation_history conversations use_context
       is_custom custom_openai_client with_conversations
       with_conversation_history].
  rewrite trimmed_idem by done. done.
Qed.

End Speech.

End ProcessConversation.

End Methods.

(** ** The routes *)

Section Routes.

Implicit Types (a : VoiceAssistant) (s : Session) (w : World).

(** The assistant after [POST /api/process]: untouched, or with the
    two messages of the turn in its history (speech synthesis failed),
    or with the turn in its window as well. *)
Lemma process_audio_self w audio_data a files :
  0 ≤ memory_size a →
  let s' := (process_audio w audio_data {| self := a; disk := Some files |}).2 in
  is_Some (disk s') ∧
  (self s' = a
   ∨ (∃ t reply,
        self s'
        = with_conversation_history
            (trimmed (memory_size a)
               (conversation_history a
                  ++ [user_message t; assistant_message reply])) a)
   ∨ (∃ t reply,
        let cs := conversations a ++ [new_turn w a t reply] in
        let cs' := renumber (drop (excess (memory_size a) cs) cs) in
        self s'
        = {| memory_size := memory_size a;
             conversation_history :=
               trimmed (memory_size a)
                 (conversation_history a
                    ++ [user_message t; assistant_message reply]);
             conversations := alter add_urls (pred (length cs')) cs';
             use_context := use_context a;
             is_custom := is_custom a;
             custom_openai_client := custom_openai_client a |})).
Proof.
  intros Hm. unfold process_audio.
  destruct (transcribe_file w audio_data) as [t|] eqn:Ht.
  2:{ rewrite process_conversation_transcription_fails by done.
      simpl. eauto. }
  destruct (whitespace_only t) eqn:Hw.
  { rewrite (process_conversation_no_speech _ _ _ _ t) by done.
    simpl. eauto. }
  destruct (chat_completions w (client_of a) (build_messages a t))
    as [reply|] eqn:Hc.
  2:{ rewrite (process_conversation_chat_fails _ _ _ _ t Ht Hw Hc).
      simpl. eauto. }
  destruct (speak w reply) as [tts|] eqn:Hs.
  2:{ rewrite (process_conversation_speech_fails _ _ _ _ t Ht Hw reply Hc Hs).
      simpl. split; [eauto|]. right; left. eauto. }
  rewrite (process_conversation_success _ _ _ _ t Ht Hw reply Hc tts Hs Hm).
  unfold set_conversations. exec. simpl. split.
  - apply unlink_all_is_Some. eauto.
  - right; right. exists t, reply. done.
Qed.

Lemma validate_size_None request :
  validate_size request = None ↔
  if req_is_custom request then 1 ≤ size request ≤ 100
  else size request = 5 ∨ size request = 10 ∨ size request = 20.
Proof.
  unfold validate_size. destruct (req_is_custom request).
  - destruct (Z.ltb_spec (size request) 1),
      (Z.ltb_spec 100 (size request)); simpl; split; try done; lia.
  - case_bool_decide as Hin; simpl.
    + split; [intros _|done].
      repeat (apply elem_of_cons in Hin as [?|Hin]; [tauto|]).
      by apply elem_of_nil in Hin.
    + split; [done|]. intros H. exfalso. apply Hin.
      rewrite !elem_of_cons. tauto.
Qed.

Lemma validate_size_bounds request :
  validate_size request = None → 1 ≤ size request ≤ 100.
Proof.
  intros H%validate_size_None. destruct (req_is_custom request); lia.
Qed.

Lemma set_memory_size_invariant size custom api_key a d :
  1 ≤ size ≤ 100 → is_Some d →
  invariant
    (Agent.set_memory_size size custom api_key {| self := a; disk := d |}).2.
Proof.
  intros Hsz Hd. rewrite set_memory_size_spec by lia.
  split; simpl.
  - done.
  - rewrite drop_excess, len_keep_last by lia. lia.
  - rewrite len_trimmed by lia. lia.
  - by apply unlink_all_is_Some.
Qed.

Lemma handle_invariant w r s : invariant s → invariant (handle w r s).2.
Proof.
  intros [Hcap Hwin Hhist Hdisk]. destruct s as [a d]. simpl in *.
  destruct r; simpl; try (by split).
  - (* /api/process *)
    destruct Hdisk as [files ->].
    destruct (process_audio_self w audio_data a files ltac:(lia))
      as [Hd [Heq|[(t & reply & Heq)|(t & reply & Heq)]]];
      split; try done; rewrite Heq; simpl; try done.
    + rewrite len_trimmed by lia. lia.
    + unfold len. rewrite length_alter, length_renumber.
      rewrite drop_excess by lia. rewrite length_keep_last. lia.
    + rewrite len_trimmed by lia. lia.
  - (* /api/memory-size *)
    unfold Server.set_memory_size.
    destruct (validate_size request) eqn:Hv; [by split|].
    apply validate_size_bounds in Hv. unfold respond.
    pose proof (set_memory_size_invariant (size request)
                  (req_is_custom request) (api_key request) a d Hv Hdisk)
      as Hinv.
    rewrite set_memory_size_spec in * by lia. done.
  - (* /api/reset-custom-key *)
    unfold Server.reset_custom_key, respond, Agent.reset_custom_key,
      set_custom_openai_client, set_is_custom.
    exec.
    match goal with
    | |- context [Agent.set_memory_size 5 false None ?s0] =>
        pose proof (set_memory_size_invariant 5 false None
                      (self s0) (disk s0) ltac:(lia) Hdisk) as Hinv
    end.
    simpl in Hinv. rewrite set_memory_size_spec in * by lia. done.
  - (* /api/clear *)
    unfold clear_conversations, respond, clear_all, audio_dir_exists,
      rmtree_audio_dir, makedirs_audio_dir, set_conversation_history,
      set_conversations.
    exec. destruct Hdisk as [files ->]. simpl.
    split; simpl; try done; unfold len; simpl; lia.
Qed.

Lemma reachable_invariant s : reachable s → invariant s.
Proof.
  induction 1 as [files|w r s _ IH].
  - split; simpl; try done; unfold len; simpl; eauto; lia.
  - by apply handle_invariant.
Qed.

Lemma reset_custom_key_spec a d :
  ∃ resp, status_code resp = 200 ∧
  Server.reset_custom_key {| self := a; disk := d |}
  = (resp,
    {| self :=
         {| memory_size := 5;
            conversation_history := trimmed 5 (conversation_history a);
            conversations :=
              drop (excess 5 (conversations a)) (conversations a);
            use_context := use_context a;
            is_custom := false;
            custom_openai_client := None |};
       disk := foldl unlink d
                 (take (excess 5 (conversations a)) (conversations a)) |}).
Proof.
  unfold Server.reset_custom_key, respond, Agent.reset_custom_key,
    set_custom_openai_client, set_is_custom.
  exec. rewrite set_memory_size_spec by lia. simpl.
  eexists. split; [|reflexivity]. done.
Qed.



Lemma reachable_run trace s : reachable s → reachable (run trace s).
Proof.
  revert s. induction trace as [|[w r] rest IH]; intros s Hs; [done|].
  simpl. apply IH. by constructor.
Qed.

End Routes.

(** ** Sizes the routes refuse

    [/api/memory-size] lets through the sizes 1 to 100 only, and the
    assistant starts at 5. Called with another size, the class behaves
    as follows. *)

(** At size 0 the history is left as it is: [history[-0:]] is the
    whole list. *)
Lemma set_memory_size_zero_history custom api_key a d :
  conversation_history
    (self (Agent.set_memory_size 0 custom api_key
             {| self := a; disk := d |}).2)
  = conversation_history a.
Proof.
  rewrite set_memory_size_spec by lia. simpl.
  unfold trimmed. by destruct (_ <? _).
Qed.

(** At a negative size the loop empties the window and then pops
    from the empty list. *)
Lemma trim_loop_negative pending : ∀ a d,
  memory_size a < 0 →
  ∃ d', trim_loop pending {| self := a; disk := d |}
        = (Raise IndexError,
           {| self := match pending with
                      | [] => a
                      | _ => with_conversations [] a
                      end;
              disk := d' |}).
Proof.
  induction pending as [|c rest IH]; intros a d Hm.
  - exists d. cbn [trim_loop]. exec. by ltb_true.
  - cbn [trim_loop]. unfold mbind at 1, M_bind at 1, get_self at 1.
    cbn [self]. ltb_true.
    unfold set_conversations at 1.
    unfold mbind at 1, M_bind at 1, update_self at 1.
    unfold mbind at 1, M_bind at 1, get_self at 1, put_self at 1.
    cbn [self disk].
    rewrite remove_if_exists, remove_if_exists. cbn [self disk].
    destruct (IH (with_conversations rest a)
                (delete (output_audio c)
                   <$> (delete (input_audio c) <$> d)) Hm) as [d' ->].
    exists d'. by destruct rest.
Qed.

(** ** Clearing *)

Lemma clear_all_spec s :
  clear_all s
  = (Return tt,
     {| self := with_conversations []
                  (with_conversation_history [] (self s));
        disk := Some ∅ |}).
Proof.
  unfold clear_all, audio_dir_exists, rmtree_audio_dir, makedirs_audio_dir,
    set_conversation_history, set_conversations.
  exec. by destruct (disk s).
Qed.

(** C3. In every state [clear_all] returns normally and leaves both
    lists empty and the audio directory in existence with no file in
    it; the route [/api/clear] answers 200 with that session. *)
Theorem clear_all_empties s :
  ∃ s', clear_all s = (Return tt, s')
    ∧ conversations (self s') = []
    ∧ conversation_history (self s') = []
    ∧ disk s' = Some ∅
    ∧ (clear_conversations s).2 = s'
    ∧ status_code (clear_conversations s).1 = 200.
Proof.
  eexists. split; [apply clear_all_spec|].
  unfold clear_conversations, respond. rewrite clear_all_spec.
  simpl. repeat split.
Qed.

(** C8. In every state [clear_all] keeps the four settings
    (memory_size, use_context, is_custom and the custom client): the
    assistant afterwards is the one before with its two lists emptied. *)
Theorem clear_all_keeps_settings s :
  let s' := (clear_all s).2 in
  memory_size (self s') = memory_size (self s)
  ∧ use_context (self s') = use_context (self s)
  ∧ is_custom (self s') = is_custom (self s)
  ∧ custom_openai_client (self s') = custom_openai_client (self s)
  ∧ self s'
    = {| memory_size := memory_size (self s);
         conversation_history := [];
         conversations := [];
         use_context := use_context (self s);
         is_custom := is_custom (self s);
         custom_openai_client := custom_openai_client (self s) |}.
Proof. rewrite clear_all_spec. simpl. repeat split. Qed.

(** ** Validation of the memory size *)

(** C4. [/api/memory-size] answers 400 exactly when the size is not
    allowed (custom: outside 1..100; preset: not 5, 10 or 20) and then
    leaves the session as it was; an allowed request is answered 200
    and the session is the one [set_memory_size] produces from the
    request's size, flag and key. *)
Theorem memory_size_validation request s :
  let resp := (Server.set_memory_size request s).1 in
  let s' := (Server.set_memory_size request s).2 in
  (status_code resp = 400 ↔ ¬ size_allowed request)
  ∧ (¬ size_allowed request → s' = s)
  ∧ (size_allowed request →
       status_code resp = 200
       ∧ Agent.set_memory_size (size request) (req_is_custom request)
           (api_key request) s = (Return tt, s')
       ∧ memory_size (self s') = size request
       ∧ is_custom (self s') = req_is_custom request).
Proof.
  pose proof (validate_size_None request) as Hv.
  fold (size_allowed request) in Hv.
  unfold Server.set_memory_size.
  destruct (validate_size request) as [detail|] eqn:Hval; simpl.
  - assert (¬ size_allowed request) as Hn by (intros H%Hv; done).
    repeat split; try done.
  - assert (size_allowed request) as Hok by (by apply Hv).
    assert (0 ≤ size request) as Hsz.
    { apply validate_size_bounds in Hval. lia. }
    unfold respond. destruct s as [a d].
    rewrite set_memory_size_spec by done. simpl.
    repeat split; try done.
Qed.

(** ** Resetting the custom key *)

(** C10. In every state [/api/reset-custom-key] answers 200, drops the
    custom client, clears [is_custom] and sets the memory size to 5:
    the window keeps its 5 most recent turns and the history its 10
    most recent messages. *)
Theorem reset_custom_key_resets_memory s :
  let resp := (Server.reset_custom_key s).1 in
  let s' := (Server.reset_custom_key s).2 in
  status_code resp = 200
  ∧ custom_openai_client (self s') = None
  ∧ is_custom (self s') = false
  ∧ memory_size (self s') = 5
  ∧ use_context (self s') = use_context (self s)
  ∧ conversations (self s') = keep_last 5 (conversations (self s))
  ∧ conversation_history (self s')
    = keep_last 10 (conversation_history (self s))
  ∧ len (conversations (self s')) ≤ 5
  ∧ len (conversation_history (self s')) ≤ 10.
Proof.
  destruct s as [a d].
  destruct (reset_custom_key_spec a d) as (resp & Hresp & ->). simpl.
  rewrite drop_excess by lia. rewrite trimmed_keep_last by lia.
  change (Z.to_nat 5) with 5%nat. change (Z.to_nat (2 * 5)) with 10%nat.
  rewrite !len_keep_last.
  repeat split; lia.
Qed.

(** ** The conversation window *)



(** ** Ids after an eviction *)

Lemma dense_ids_add_urls_last cs :
  dense_ids cs → dense_ids (alter add_urls (pred (length cs)) cs).
Proof.
  unfold dense_ids. by rewrite id_add_urls_last, length_alter.
Qed.

(** X15. From every session the server can reach, whenever
    [/api/process] answers with a turn the ids of the window are
    1..N in list order afterwards, whatever they were before. *)
Lemma process_audio_renumbers w audio_data s c :
  reachable s →
  body (process_audio w audio_data s).1 = JsonTurn c →
  dense_ids (conversations (self (process_audio w audio_data s).2)).
Proof.
  intros [Hcap _ _ [files Hd]]%reachable_invariant.
  destruct s as [a d]. simpl in *. subst d.
  unfold process_audio.
  destruct (transcribe_file w audio_data) as [t|] eqn:Ht.
  2:{ by rewrite process_conversation_transcription_fails. }
  destruct (whitespace_only t) eqn:Hw.
  { by rewrite (process_conversation_no_speech _ _ _ _ t). }
  destruct (chat_completions w (client_of a) (build_messages a t))
    as [reply|] eqn:Hc.
  2:{ by rewrite (process_conversation_chat_fails _ _ _ _ t Ht Hw Hc). }
  destruct (speak w reply) as [tts|] eqn:Hs.
  2:{ by rewrite (process_conversation_speech_fails
                    _ _ _ _ t Ht Hw reply Hc Hs). }
  rewrite (process_conversation_success
             _ _ _ _ t Ht Hw reply Hc tts Hs ltac:(lia)).
  intros _. unfold set_conversations. exec. simpl.
  apply dense_ids_add_urls_last, renumber_dense.
Qed.

(** [set_memory_size] drops the oldest turns and keeps the ids the
    others had. *)
Lemma set_memory_size_keeps_ids size custom api_key a d :
  0 ≤ size →
  id <$> conversations
           (self (Agent.set_memory_size size custom api_key
                    {| self := a; disk := d |}).2)
  = drop (excess size (conversations a)) (id <$> conversations a).
Proof.
  intros Hsz. rewrite set_memory_size_spec by done. simpl.
  apply fmap_drop.
Qed.

(** C2, on the shrinking path. A session with three turns, numbered
    1, 2, 3, receives the custom size 2: the request is accepted, the
    oldest turn is evicted, and the two that remain keep the ids 2
    and 3 instead of being renumbered 1 and 2. *)
Theorem shrinking_keeps_stale_ids :
  let s := Sample.three_turns in
  let resp := (Server.set_memory_size (Sample.shrink_to 2) s).1 in
  let s' := (Server.set_memory_size (Sample.shrink_to 2) s).2 in
  id <$> conversations (self s) = [1; 2; 3]
  ∧ status_code resp = 200
  ∧ id <$> conversations (self s') = [2; 3]
  ∧ ¬ dense_ids (conversations (self s')).
Proof.
  repeat split; try (vm_compute; reflexivity).
  intros H. vm_compute in H. discriminate H.
Qed.

(** ** No speech *)

(** C5. When the transcript is empty or white space only (and the
    audio directory exists), [process_conversation] returns the error
    dict, the route answers 400 with it, the assistant is unchanged
    (no turn, no message), and the disk is the one before without the
    input file: that file is gone and no other file, in particular no
    output file, was created or changed. *)
Theorem no_speech_detected w audio_data s files transcript :
  disk s = Some files →
  transcribe_file w audio_data = Some transcript →
  whitespace_only transcript = true →
  let input_path := input_path_of (now w) in
  let s' := {| self := self s; disk := Some (delete input_path files) |} in
  process_conversation w audio_data s
  = (Return (ErrorDict "No speech detected"), s')
  ∧ process_audio w audio_data s
    = ({| status_code := 400; body := JsonError "No speech detected" |}, s')
  ∧ delete input_path files !! input_path = None
  ∧ (∀ path, path ≠ input_path →
       delete input_path files !! path = files !! path)
  ∧ delete input_path files ⊆ files.
Proof.
  intros Hd Ht Hw. destruct s as [a d]. simpl in *. subst d.
  pose proof (process_conversation_no_speech w audio_data a files
                transcript Ht Hw) as Hp.
  repeat split.
  - done.
  - unfold process_audio. by rewrite Hp.
  - apply lookup_delete_eq.
  - intros path Hne. by apply lookup_delete_ne.
  - apply delete_subseteq.
Qed.

Lemma no_speech_detected_witness :
  let w := Sample.world 1700000000009 "  " "unused" in
  let files : gmap string bytes := {[ "audio_files/old.wav" := [] ]} in
  let s := initial files in
  disk s = Some files
  ∧ transcribe_file w [] = Some "  "
  ∧ whitespace_only "  " = true
  ∧ process_audio w [] s
    = ({| status_code := 400; body := JsonError "No speech detected" |},
       {| self := self s;
          disk := Some (delete (input_path_of (now w)) files) |}).
Proof.
  split; [reflexivity|]. split; [reflexivity|]. split; [reflexivity|].
  exact (proj1 (proj2
    (no_speech_detected (Sample.world 1700000000009 "  " "unused") []
       (initial {[ "audio_files/old.wav" := [] ]})
       {[ "audio_files/old.wav" := [] ]} "  "
       eq_refl eq_refl eq_refl))).
Defined.

(** ** What the model is sent *)

Lemma build_messages_spec a text :
  build_messages a text
  = system_message
      :: (if use_context a then conversation_history a else [])
      ++ [user_message text].
Proof. unfold build_messages. by destruct (use_context a). Qed.

(** C6. In every session the server can reach, [get_ai_response]
    calls the model with the system prompt, then the prior messages,
    then the user's message, and answers what the model answers. With
    [use_context] off there is no prior message; with it on the prior
    messages are those of [conversation_history], at most twice the
    memory size of them. *)
Theorem llm_messages s w text :
  reachable s →
  let a := self s in
  let prior := if use_context a then conversation_history a else [] in
  let sent := system_message :: prior ++ [user_message text] in
  build_messages a text = sent
  ∧ (get_ai_response w text s).1
    = match chat_completions w (client_of a) sent with
      | Some reply => Return reply
      | None => Raise (ServiceError "openai.chat")
      end
  ∧ (use_context a = false → sent = [system_message; user_message text])
  ∧ (use_context a = true →
       sent = system_message :: conversation_history a ++ [user_message text])
  ∧ len prior ≤ 2 * memory_size a.
Proof.
  intros [Hcap _ Hhist _]%reachable_invariant. destruct s as [a d].
  simpl in *. repeat split.
  - apply build_messages_spec.
  - rewrite get_ai_response_spec, build_messages_spec.
    by destruct (chat_completions w _ _).
  - by intros ->.
  - by intros ->.
  - destruct (use_context a); [done|]. unfold len. simpl. lia.
Qed.

Lemma llm_messages_witness :
  let s := (update_settings true Sample.three_turns).2 in
  let w := Sample.world 1700000000010 "again" "sure" in
  reachable s
  ∧ build_messages (self s) "again"
    = system_message
        :: (if use_context (self s) then conversation_history (self s)
            else [])
        ++ [user_message "again"]
  ∧ len (if use_context (self s) then conversation_history (self s)
         else [])
    ≤ 2 * memory_size (self s).
Proof.
  assert (reachable (update_settings true Sample.three_turns).2) as H.
  { apply (reach_step (Sample.world 0 "" "") (PostSettings true)).
    apply reachable_run. constructor. }
  split; [exact H|].
  destruct (llm_messages _ (Sample.world 1700000000010 "again" "sure")
              "again" H) as (H1 & _ & _ & _ & H5).
  split; [exact H1 | exact H5].
Defined.

(** ** The message history *)



(** C9. From every session the server can reach, a turn that
    [process_conversation] completes puts the user's message and the
    reply at the end of [conversation_history], whatever [use_context]
    is; once [use_context] is switched on, the next list built for
    the model carries them right before the new user message. *)
Theorem history_records_every_turn s w audio_data c s1 :
  reachable s →
  process_conversation w audio_data s = (Return (ConversationData c), s1) →
  let said := [user_message (user_text c); assistant_message (ai_text c)] in
  history_step s s1 said
  ∧ said `suffix_of` conversation_history (self s1)
  ∧ use_context (self s1) = use_context (self s)
  ∧ ∀ text,
      let s2 := (set_use_context true s1).2 in
      use_context (self s2) = true
      ∧ ∃ earlier,
          build_messages (self s2) text
          = system_message :: earlier ++ said ++ [user_message text].
Proof.
  intros [Hcap _ _ [files Hd]]%reachable_invariant.
  destruct s as [a d]. simpl in *. subst d.
  destruct (transcribe_file w audio_data) as [t|] eqn:Ht.
  2:{ by rewrite process_conversation_transcription_fails. }
  destruct (whitespace_only t) eqn:Hw.
  { by rewrite (process_conversation_no_speech _ _ _ _ t). }
  destruct (chat_completions w (client_of a) (build_messages a t))
    as [reply|] eqn:Hc.
  2:{ by rewrite (process_conversation_chat_fails _ _ _ _ t Ht Hw Hc). }
  destruct (speak w reply) as [tts|] eqn:Hs.
  2:{ by rewrite (process_conversation_speech_fails
                    _ _ _ _ t Ht Hw reply Hc Hs). }
  rewrite (process_conversation_success
             _ _ _ _ t Ht Hw reply Hc tts Hs ltac:(lia)).
  intros [= <- <-].
  pose proof (payload_returned
                (excess (memory_size a)
                   (conversations a ++ [new_turn w a t reply]))
                (conversations a) (new_turn w a t reply)) as Hp.
  unfold payload in Hp. simpl in Hp. injection Hp as -> -> _ _.
  assert ([user_message t; assistant_message reply]
            `suffix_of`
          trimmed (memory_size a)
            (conversation_history a
               ++ [user_message t; assistant_message reply])) as Hsuf.
  { rewrite trimmed_keep_last by lia.
    apply keep_last_app_suffix. simpl. lia. }
  unfold history_step. simpl. repeat split.
  - by rewrite trimmed_keep_last by lia.
  - done.
  - destruct Hsuf as [earlier ->]. exists earlier.
    rewrite build_messages_spec. simpl. by rewrite <- app_assoc.
Qed.

Lemma history_records_every_turn_witness :
  let s := initial ∅ in
  let w := Sample.world 1700000000001 "hello" "hi there" in
  reachable s
  ∧ (∃ c s1,
       process_conversation w [] s = (Return (ConversationData c), s1)
       ∧ use_context (self s) = false
       ∧ [user_message (user_text c); assistant_message (ai_text c)]
           `suffix_of` conversation_history (self s1)).
Proof.
  split; [constructor|].
  eexists _, _. split; [vm_compute; reflexivity|].
  split; [reflexivity|].
  exact (proj1 (proj2
    (history_records_every_turn (initial ∅)
       (Sample.world 1700000000001 "hello" "hi there") [] _ _
       (reach_initial ∅) eq_refl))).
Defined.

(** * Further properties of the two files *)

Import Files.

(** ** Eviction and the audio files *)

Lemma elem_of_audio_paths (p : str) cs :
  p ∈ audio_paths cs ↔ ∃ c, c ∈ cs ∧ (p = input_audio c ∨ p = output_audio c).
Proof.
  unfold audio_paths. rewrite list_elem_of_bind. split.
  - intros (c & Hp & Hc). exists c. split; [done|].
    rewrite !elem_of_cons, elem_of_nil in Hp. tauto.
  - intros (c & Hc & Hp). exists c. split; [|done].
    rewrite !elem_of_cons. tauto.
Qed.

Lemma audio_paths_cons c cs :
  audio_paths (c :: cs) = input_audio c :: output_audio c :: audio_paths cs.
Proof. done. Qed.

Lemma unlink_all_lookup cs : ∀ (files : gmap string bytes),
  ∃ files', foldl unlink (Some files) cs = Some files'
    ∧ ∀ p, files' !! p
           = if decide (p ∈ audio_paths cs) then None else files !! p.
Proof.
  induction cs as [|c cs IH]; intros files; cbn [foldl].
  - exists files. split; [done|]. intros p.
    destruct (decide (p ∈ audio_paths [])) as [Hp|_]; [|done].
    by apply elem_of_nil in Hp.
  - destruct (IH (delete (output_audio c) (delete (input_audio c) files)))
      as (files' & Hf & Hl).
    exists files'. split; [exact Hf|]. intros p. rewrite Hl.
    rewrite audio_paths_cons.
    destruct (decide (p ∈ audio_paths cs)) as [Hin|Hnin].
    { rewrite decide_True; [done|]. rewrite !elem_of_cons. tauto. }
    destruct (decide (p = output_audio c)) as [->|Ho].
    { rewrite lookup_delete_eq.
      rewrite decide_True; [done|]. rewrite !elem_of_cons. tauto. }
    rewrite lookup_delete_ne by done.
    destruct (decide (p = input_audio c)) as [->|Hi].
    { rewrite lookup_delete_eq.
      rewrite decide_True; [done|]. rewrite !elem_of_cons. tauto. }
    rewrite lookup_delete_ne by done.
    rewrite decide_False; [done|]. rewrite !elem_of_cons. tauto.
Qed.

(** X1. With a capacity that is not negative, [_trim_conversations]
    returns normally; the audio files of the turns it evicts (the
    first turns beyond the capacity) are gone from the disk, every
    other file is as before, and the window is what follows the
    evicted turns. *)
Theorem trim_removes_audio_of_evicted a (files : gmap string bytes) :
  0 ≤ memory_size a →
  let evicted :=
    take (excess (memory_size a) (conversations a)) (conversations a) in
  ∃ a' files',
    _trim_conversations {| self := a; disk := Some files |}
    = (Return tt, {| self := a'; disk := Some files' |})
    ∧ conversations a = evicted ++ conversations a'
    ∧ (∀ c, c ∈ evicted →
         files' !! input_audio c = None ∧ files' !! output_audio c = None)
    ∧ (∀ p, p ∉ audio_paths evicted → files' !! p = files !! p).
Proof.
  intros Hm. rewrite _trim_conversations_spec by done.
  destruct (unlink_all_lookup
              (take (excess (memory_size a) (conversations a))
                 (conversations a)) files) as (files' & -> & Hl).
  eexists _, files'. split; [done|]. simpl. split; [|split].
  - by rewrite take_drop.
  - intros c Hc. rewrite !Hl.
    rewrite !decide_True; [done|..];
      apply elem_of_audio_paths; eauto.
  - intros p Hp. rewrite Hl. by rewrite decide_False.
Qed.

(** ** A turn that is stored *)

Section Stored.

Implicit Types (a : VoiceAssistant) (cs : list Turn).

Lemma staying_making_room m cs : making_room m cs ++ staying m cs = cs.
Proof. unfold making_room, staying, keep_last. apply take_drop. Qed.

Lemma renumber_snoc cs c :
  renumber (cs ++ [c]) = renumber cs ++ [set_id (len cs + 1) c].
Proof.
  unfold renumber. rewrite imap_app. simpl.
  by rewrite Nat.add_0_r.
Qed.

Lemma alter_last_snoc {A} (f : A → A) (l : list A) (x : A) :
  alter f (pred (length (l ++ [x]))) (l ++ [x]) = l ++ [f x].
Proof.
  rewrite length_app. simpl.
  replace (pred (length l + 1)) with (length l + 0)%nat by lia.
  by rewrite alter_app_r.
Qed.

Lemma drop_excess_snoc m cs c :
  1 ≤ m →
  drop (excess m (cs ++ [c])) (cs ++ [c]) = staying m cs ++ [c].
Proof.
  intros Hm. unfold excess, staying, keep_last, len.
  rewrite length_app. simpl.
  rewrite drop_app_le by lia. do 2 f_equal. lia.
Qed.

Lemma take_excess_snoc m cs c :
  1 ≤ m → take (excess m (cs ++ [c])) (cs ++ [c]) = making_room m cs.
Proof.
  intros Hm. unfold excess, making_room, len.
  rewrite length_app. simpl.
  rewrite take_app_le by lia. f_equal. lia.
Qed.

Variables (w : World) (audio_data : bytes) (a : VoiceAssistant).
Variable files : gmap string bytes.
Hypothesis Hcapacity : 1 ≤ memory_size a.

(** What [/api/process] does when the three services answer. *)
Lemma process_audio_stores t reply tts :
  transcribe_file w audio_data = Some t →
  whitespace_only t = false →
  chat_completions w (client_of a) (build_messages a t) = Some reply →
  speak w reply = Some tts →
  let kept := staying (memory_size a) (conversations a) in
  let stored := stored_turn w kept t reply in
  process_audio w audio_data {| self := a; disk := Some files |}
  = ({| status_code := 200; body := JsonTurn stored |},
     {| self :=
          {| memory_size := memory_size a;
             conversation_history :=
               keep_last (Z.to_nat (2 * memory_size a))
                 (conversation_history a
                    ++ [user_message t; assistant_message reply]);
             conversations := renumber kept ++ [stored];
             use_context := use_context a;
             is_custom := is_custom a;
             custom_openai_client := custom_openai_client a |};
        disk :=
          foldl unlink
            (Some (<[output_path_of (now w) := tts]>
                     (<[input_path_of (now w) := audio_data]> files)))
            (making_room (memory_size a) (conversations a)) |}).
Proof.
  intros Ht Hw Hc Hs. unfold process_audio.
  rewrite (process_conversation_success
             _ _ _ _ t Ht Hw reply Hc tts Hs ltac:(lia)).
  rewrite drop_excess_snoc, take_excess_snoc by done.
  rewrite renumber_snoc, last_snoc. cbn [default].
  unfold set_conversations. exec.
  cbn [conversations]. rewrite alter_last_snoc.
  rewrite trimmed_keep_last by done. reflexivity.
Qed.

(** When [/api/process] answers with a turn, the three services
    answered. *)
Lemma process_audio_turn_inv c :
  body (process_audio w audio_data {| self := a; disk := Some files |}).1
  = JsonTurn c →
  ∃ t reply tts,
    transcribe_file w audio_data = Some t
    ∧ whitespace_only t = false
    ∧ chat_completions w (client_of a) (build_messages a t) = Some reply
    ∧ speak w reply = Some tts.
Proof.
  unfold process_audio.
  destruct (transcribe_file w audio_data) as [t|] eqn:Ht.
  2:{ by rewrite process_conversation_transcription_fails. }
  destruct (whitespace_only t) eqn:Hw.
  { by rewrite (process_conversation_no_speech _ _ _ _ t). }
  destruct (chat_completions w (client_of a) (build_messages a t))
    as [reply|] eqn:Hc.
  2:{ by rewrite (process_conversation_chat_fails _ _ _ _ t Ht Hw Hc). }
  destruct (speak w reply) as [tts|] eqn:Hs.
  2:{ by rewrite (process_conversation_speech_fails
                    _ _ _ _ t Ht Hw reply Hc Hs). }
  intros _. by exists t, reply, tts.
Qed.

End Stored.

(** A session the server can reach, answering [/api/process] with a
    turn. *)
Lemma reachable_stores s w audio_data c :
  reachable s →
  body (process_audio w audio_data s).1 = JsonTurn c →
  ∃ files t reply tts,
    disk s = Some files
    ∧ transcribe_file w audio_data = Some t
    ∧ chat_completions w (client_of (self s)) (build_messages (self s) t)
      = Some reply
    ∧ speak w reply = Some tts
    ∧ c = stored_turn w
            (staying (memory_size (self s)) (conversations (self s)))
            t reply
    ∧ process_audio w audio_data s
      = ({| status_code := 200; body := JsonTurn c |},
         {| self :=
              {| memory_size := memory_size (self s);
                 conversation_history :=
                   keep_last (Z.to_nat (2 * memory_size (self s)))
                     (conversation_history (self s)
                        ++ [user_message t; assistant_message reply]);
                 conversations :=
                   renumber (staying (memory_size (self s))
                               (conversations (self s))) ++ [c];
                 use_context := use_context (self s);
                 is_custom := is_custom (self s);
                 custom_openai_client := custom_openai_client (self s) |};
            disk :=
              foldl unlink
                (Some (<[output_path_of (now w) := tts]>
                         (<[input_path_of (now w) := audio_data]> files)))
                (making_room (memory_size (self s))
                   (conversations (self s))) |}).
Proof.
  intros [[Hcap _] _ _ [files Hd]]%reachable_invariant Hc.
  destruct s as [a d]. simpl in *. subst d.
  destruct (process_audio_turn_inv w audio_data a files c Hc)
    as (t & reply & tts & Ht & Hw & Hr & Hs).
  pose proof (process_audio_stores w audio_data a files Hcap
                t reply tts Ht Hw Hr Hs) as Heq.
  simpl in Heq. rewrite Heq in Hc. simpl in Hc. injection Hc as <-.
  exists files, t, reply, tts. by rewrite Heq.
Qed.

Lemma input_output_distinct (t t' : Z) :
  input_path_of t ≠ output_path_of t'.
Proof. intros H. cbv [input_path_of output_path_of path_join AUDIO_DIR] in H.
  simpl in H. discriminate H. Qed.

Lemma making_room_subseteq m cs : making_room m cs ⊆ cs.
Proof.
  intros c Hc. rewrite <- (staying_making_room m cs).
  apply elem_of_app. by left.
Qed.

(** X2. When [/api/process] answers with a turn whose two paths are
    not those of a turn already in the window (the millisecond is a
    new one), both files are on the disk afterwards: the input file
    holds the uploaded bytes and the output file the synthesised
    speech of the reply. *)
Theorem stored_turn_has_audio s w audio_data c :
  reachable s →
  body (process_audio w audio_data s).1 = JsonTurn c →
  input_audio c ∉ audio_paths (conversations (self s)) →
  output_audio c ∉ audio_paths (conversations (self s)) →
  ∃ files',
    disk (process_audio w audio_data s).2 = Some files'
    ∧ files' !! input_audio c = Some audio_data
    ∧ files' !! output_audio c = speak w (ai_text c)
    ∧ is_Some (files' !! output_audio c).
Proof.
  intros Hs Hc Hin Hout.
  destruct (reachable_stores s w audio_data c Hs Hc)
    as (files & t & reply & tts & Hd & Ht & Hr & Hsp & -> & ->).
  simpl in *.
  destruct (unlink_all_lookup
              (making_room (memory_size (self s)) (conversations (self s)))
              (<[output_path_of (now w) := tts]>
                 (<[input_path_of (now w) := audio_data]> files)))
    as (files' & -> & Hl).
  assert (∀ p, p ∉ audio_paths (conversations (self s)) →
               p ∉ audio_paths (making_room (memory_size (self s))
                                  (conversations (self s)))) as Hsub.
  { intros p Hp (old & Hold & Hpath)%elem_of_audio_paths. apply Hp.
    apply elem_of_audio_paths. exists old.
    split; [by apply making_room_subseteq in Hold | done]. }
  exists files'. split; [done|].
  rewrite !Hl, !decide_False by auto.
  rewrite lookup_insert_ne by (intros H; symmetry in H;
                               by apply input_output_distinct in H).
  rewrite !lookup_insert_eq, Hsp. eauto.
Qed.

(** X3. When [/api/process] answers with a turn, that turn is the
    last of the window, its id is the number of turns now stored
    (between 1 and the memory size), and [/api/stats] reports that
    count against the memory size. *)
Theorem stored_turn_is_last s w audio_data c :
  reachable s →
  body (process_audio w audio_data s).1 = JsonTurn c →
  let s' := (process_audio w audio_data s).2 in
  last (conversations (self s')) = Some c
  ∧ id c = len (conversations (self s'))
  ∧ id c = Z.min (len (conversations (self s)) + 1) (memory_size (self s))
  ∧ 1 ≤ id c ≤ memory_size (self s)
  ∧ Server.get_stats s'
    = ({| status_code := 200;
          body := JsonStats (id c) (memory_size (self s)) |}, s').
Proof.
  intros Hs Hc.
  pose proof (reachable_invariant s Hs) as [[Hcap _] Hwin _ _].
  destruct (reachable_stores s w audio_data c Hs Hc)
    as (files & t & reply & tts & Hd & Ht & Hr & Hsp & Heq & Hp).
  rewrite Hp. cbn [snd self conversations].
  assert (id c = len (staying (memory_size (self s))
                        (conversations (self s))) + 1) as Hid
    by by rewrite Heq.
  assert (len (renumber (staying (memory_size (self s))
                           (conversations (self s))) ++ [c]) = id c)
    as Hlen.
  { unfold len. rewrite length_app, length_renumber. simpl.
    unfold len in Hid. lia. }
  assert (id c = Z.min (len (conversations (self s)) + 1)
                   (memory_size (self s))) as Hmin.
  { rewrite Hid. unfold staying. rewrite len_keep_last. lia. }
  split; [apply last_snoc|]. split; [done|]. split; [done|].
  split; [unfold len in *; lia|].
  unfold Server.get_stats, respond, Agent.get_stats. exec. simpl.
  by rewrite Hlen.
Qed.

Lemma stored_turn_dense_aux s w audio_data c :
  reachable s →
  body (process_audio w audio_data s).1 = JsonTurn c →
  let s' := (process_audio w audio_data s).2 in
  last (conversations (self s')) = Some c
  ∧ Z.of_nat (length (conversations (self s'))) = id c
  ∧ c = add_urls c.
Proof.
  intros Hs Hc.
  destruct (reachable_stores s w audio_data c Hs Hc)
    as (files & t & reply & tts & Hd & Ht & Hr & Hsp & Heq & Hp).
  rewrite Hp. cbn [snd self conversations].
  split; [apply last_snoc|]. split; [|by rewrite Heq].
  rewrite length_app, length_renumber, Heq. simpl. unfold len. lia.
Qed.

Lemma add_urls_idem c : add_urls (add_urls c) = add_urls c.
Proof. done. Qed.

Lemma add_urls_stored w kept t reply :
  add_urls (stored_turn w kept t reply) = stored_turn w kept t reply.
Proof. done. Qed.

(** X4. Right after [/api/process] answered with a turn,
    [/api/conversations] lists the window in order, one entry per
    stored turn, and its last entry is that very turn: same id,
    texts, paths and URLs. The call leaves the session as it is. *)
Theorem listed_after_stored s w audio_data c :
  reachable s →
  body (process_audio w audio_data s).1 = JsonTurn c →
  let s' := (process_audio w audio_data s).2 in
  ∃ listed,
    Server.get_conversations s'
    = ({| status_code := 200; body := JsonTurns listed |}, s')
    ∧ last listed = Some c
    ∧ len listed = id c
    ∧ id <$> listed = id <$> conversations (self s')
    ∧ payload <$> listed = payload <$> conversations (self s').
Proof.
  intros Hs Hc.
  destruct (stored_turn_dense_aux s w audio_data c Hs Hc)
    as (Hlast & Hlen & Hurl).
  exists (add_urls <$> conversations (self (process_audio w audio_data s).2)).
  split; [done|]. split; [|split; [|split]].
  - rewrite fmap_last, Hlast. simpl. by rewrite <- Hurl.
  - unfold len. rewrite length_fmap. exact Hlen.
  - rewrite <- list_fmap_compose. by apply list_fmap_ext.
  - rewrite <- list_fmap_compose. by apply list_fmap_ext.
Qed.

(** ** Paths and URLs *)

Lemma has_slash_app (p q : str) :
  has_slash (p +:+ q) = has_slash p || has_slash q.
Proof.
  induction p as [|c p IH]; simpl; [done|].
  rewrite IH. by rewrite orb_assoc.
Qed.

Lemma has_slash_digit (d : N) (r : str) :
  has_slash (String (pretty_N_char d) r) = has_slash r.
Proof. unfold pretty_N_char. by repeat case_match. Qed.

Lemma has_slash_pretty_N_go (x : N) : ∀ r,
  has_slash (pretty_N_go x r) = has_slash r.
Proof.
  induction (N.lt_wf_0 x) as [x _ IH]; intros r.
  destruct (decide (x = 0%N)) as [->|Hx]; [done|].
  rewrite pretty_N_go_step by lia.
  rewrite IH by (apply N.div_lt; lia).
  apply has_slash_digit.
Qed.

Lemma has_slash_pretty_N (x : N) : has_slash (pretty x) = false.
Proof.
  unfold pretty, pretty_N. case_decide; [done|].
  by rewrite has_slash_pretty_N_go.
Qed.

(** The decimal form of an integer holds no slash. *)
Lemma has_slash_pretty_Z (z : Z) : has_slash (pretty z) = false.
Proof.
  destruct z as [|p|p]; unfold pretty, pretty_Z; [done| |].
  - apply has_slash_pretty_N.
  - rewrite has_slash_app. simpl. apply has_slash_pretty_N.
Qed.

(** [basename] undoes [os.path.join] for a file name with no slash. *)
Lemma basename_path_join (dir file : str) :
  has_slash file = false → basename (path_join dir file) = file.
Proof.
  intros Hf. unfold path_join.
  change ("/" +:+ file) with (String "/" file).
  induction dir as [|c dir IH].
  - change ("" +:+ String "/" file) with (String "/" file).
    cbn [basename]. by rewrite Hf.
  - change (String c dir +:+ String "/" file)
      with (String c (dir +:+ String "/" file)).
    cbn [basename]. rewrite has_slash_app. cbn [has_slash].
    by rewrite orb_true_r.
Qed.

(** X5. When [/api/process] answers with a turn, its two paths are
    [audio_files/input_<ms>.wav] and [audio_files/output_<ms>.mp3]
    for the millisecond of the request, and its two URLs are those
    file names under [/audio/]: the base name of a path is the file
    name that was joined to the directory. *)
Theorem stored_turn_urls s w audio_data c :
  reachable s →
  body (process_audio w audio_data s).1 = JsonTurn c →
  input_audio c = "audio_files/input_" +:+ pretty (now w) +:+ ".wav"
  ∧ output_audio c = "audio_files/output_" +:+ pretty (now w) +:+ ".mp3"
  ∧ input_audio_url c = Some ("/audio/input_" +:+ pretty (now w) +:+ ".wav")
  ∧ output_audio_url c
    = Some ("/audio/output_" +:+ pretty (now w) +:+ ".mp3").
Proof.
  intros Hs Hc.
  destruct (reachable_stores s w audio_data c Hs Hc)
    as (files & t & reply & tts & _ & _ & _ & _ & -> & _).
  cbn [input_audio_url output_audio_url input_audio output_audio
       stored_turn].
  split; [reflexivity|]. split; [reflexivity|].
  unfold input_path_of, output_path_of.
  rewrite !basename_path_join; [split; reflexivity|..];
    rewrite !has_slash_app, has_slash_pretty_Z; reflexivity.
Qed.

(** ** Which client is used *)

Lemma set_memory_size_route_spec request a d :
  size_allowed request →
  Server.set_memory_size request {| self := a; disk := d |}
  = ({| status_code := 200;
        body := JsonMemory "ok" (size request) (req_is_custom request) |},
     {| self :=
          {| memory_size := size request;
             conversation_history :=
               keep_last (Z.to_nat (2 * size request))
                 (conversation_history a);
             conversations :=
               keep_last (Z.to_nat (size request)) (conversations a);
             use_context := use_context a;
             is_custom := req_is_custom request;
             custom_openai_client :=
               client_after (req_is_custom request) (api_key request)
                 (custom_openai_client a) |};
        disk := foldl unlink d
                  (take (excess (size request) (conversations a))
                     (conversations a)) |}).
Proof.
  intros Hok%validate_size_None. unfold Server.set_memory_size.
  rewrite Hok. apply validate_size_bounds in Hok. unfold respond.
  rewrite set_memory_size_spec by lia.
  by rewrite drop_excess, trimmed_keep_last by lia.
Qed.

(** X6. An accepted [/api/memory-size] request that carries a key
    that is not empty installs it, whether the size is a custom or a
    preset one: the next [get_ai_response] calls the model through
    the client built from that key. *)
Theorem supplied_key_is_used request s k w text :
  size_allowed request →
  api_key request = Some k →
  k ≠ EmptyString →
  let s' := (Server.set_memory_size request s).2 in
  custom_openai_client (self s') = Some k
  ∧ (get_ai_response w text s').1
    = match chat_completions w (CustomClient k)
              (build_messages (self s') text) with
      | Some reply => Return reply
      | None => Raise (ServiceError "openai.chat")
      end.
Proof.
  intros Hok Hkey Hk. destruct s as [a d].
  rewrite set_memory_size_route_spec by done. cbn [snd].
  rewrite get_ai_response_spec. unfold client_of. cbn [self custom_openai_client].
  rewrite Hkey. destruct k as [|c k]; [done|]. cbn [client_after truthy].
  split; [done|]. by destruct (chat_completions w _ _).
Qed.

(** X7. An accepted request with no key, or with the empty key,
    keeps the client in place when the size is a custom one and drops
    it when the size is a preset; after [/api/reset-custom-key] the
    next [get_ai_response] calls the model through the default
    client. *)
Theorem keyless_request_client request s w text :
  size_allowed request →
  api_key request = None ∨ api_key request = Some EmptyString →
  custom_openai_client (self (Server.set_memory_size request s).2)
  = (if req_is_custom request then custom_openai_client (self s) else None)
  ∧ (get_ai_response w text (Server.reset_custom_key s).2).1
    = match chat_completions w DefaultClient
              (build_messages (self (Server.reset_custom_key s).2) text) with
      | Some reply => Return reply
      | None => Raise (ServiceError "openai.chat")
      end.
Proof.
  intros Hok Hkey. destruct s as [a d]. split.
  - rewrite set_memory_size_route_spec by done. simpl.
    by destruct Hkey as [-> | ->].
  - destruct (reset_custom_key_spec a d) as (resp & _ & ->). cbn [snd].
    rewrite get_ai_response_spec. unfold client_of. simpl.
    by destruct (chat_completions w _ _).
Qed.

(** ** When a service fails *)

(** X8. When the transcription raises, or the transcript has speech
    and the model raises, [/api/process] answers 500, the assistant
    is as before, and the input file stays on the disk with the
    uploaded bytes: it is not removed as in the no-speech case. *)
Theorem failure_before_reply s w audio_data files :
  disk s = Some files →
  transcribe_file w audio_data = None
  ∨ (∃ t, transcribe_file w audio_data = Some t
          ∧ whitespace_only t = false
          ∧ chat_completions w (client_of (self s))
              (build_messages (self s) t) = None) →
  ∃ e, process_audio w audio_data s
       = ({| status_code := 500; body := DetailOf e |},
          {| self := self s;
             disk := Some (<[input_path_of (now w) := audio_data]> files) |}).
Proof.
  intros Hd Hfail. destruct s as [a d]. simpl in *. subst d.
  unfold process_audio. destruct Hfail as [Ht|(t & Ht & Hw & Hc)].
  - rewrite process_conversation_transcription_fails by done. eauto.
  - rewrite (process_conversation_chat_fails _ _ _ _ t Ht Hw Hc). eauto.
Qed.

(** X9. When the model answered and the speech synthesis raises,
    [/api/process] answers 500 and stores no turn, yet the user's
    message and the reply are already at the end of the history; the
    input file stays on the disk and no output file is written. *)
Theorem speech_failure_keeps_messages s w audio_data t reply :
  reachable s →
  transcribe_file w audio_data = Some t →
  whitespace_only t = false →
  chat_completions w (client_of (self s)) (build_messages (self s) t)
  = Some reply →
  speak w reply = None →
  let s' := (process_audio w audio_data s).2 in
  status_code (process_audio w audio_data s).1 = 500
  ∧ conversations (self s') = conversations (self s)
  ∧ history_step s s' [user_message t; assistant_message reply]
  ∧ [user_message t; assistant_message reply]
      `suffix_of` conversation_history (self s')
  ∧ ∃ files, disk s = Some files
      ∧ disk s' = Some (<[input_path_of (now w) := audio_data]> files).
Proof.
  intros [[Hcap _] _ _ [files Hd]]%reachable_invariant Ht Hw Hc Hs.
  destruct s as [a d]. simpl in *. subst d. unfold process_audio.
  rewrite (process_conversation_speech_fails _ _ _ _ t Ht Hw reply Hc Hs).
  unfold history_step. simpl. rewrite trimmed_keep_last by done.
  repeat split; try done.
  - apply keep_last_app_suffix. simpl. lia.
  - eauto.
Qed.

(** ** Resizing *)

Lemma keep_last_keep_last {A} (n m : nat) (l : list A) :
  keep_last n (keep_last m l) = keep_last (Nat.min n m) l.
Proof.
  unfold keep_last. rewrite drop_drop, length_drop. f_equal. lia.
Qed.

(** X10. Two accepted [/api/memory-size] requests in a row leave the
    second size in force, and of the window and of the history only
    what fits the smaller of the two sizes: growing the memory again
    brings nothing back. *)
Theorem resizing_twice r1 r2 s :
  size_allowed r1 →
  size_allowed r2 →
  let s2 := (Server.set_memory_size r2 (Server.set_memory_size r1 s).2).2 in
  let n := Z.min (size r1) (size r2) in
  memory_size (self s2) = size r2
  ∧ conversations (self s2)
    = keep_last (Z.to_nat n) (conversations (self s))
  ∧ conversation_history (self s2)
    = keep_last (Z.to_nat (2 * n)) (conversation_history (self s)).
Proof.
  intros H1 H2. destruct s as [a d].
  rewrite (set_memory_size_route_spec r1) by done. cbn [snd].
  rewrite (set_memory_size_route_spec r2) by done. simpl.
  rewrite !keep_last_keep_last.
  repeat split; f_equal; lia.
Qed.

(** ** History and window *)

(** X11. In every session the server can reach, the history holds at
    least two messages per stored turn, and at most two per unit of
    memory size. *)
Theorem history_covers_window s :
  reachable s →
  2 * len (conversations (self s)) ≤ len (conversation_history (self s))
  ∧ len (conversation_history (self s)) ≤ 2 * memory_size (self s).
Proof.
  intros Hs. split; [|by apply reachable_invariant].
  induction Hs as [files|w r s Hs IH]; [done|].
  pose proof (reachable_invariant s Hs) as [[Hcap _] Hwin Hhist [files Hd]].
  destruct s as [a d]. simpl in *. subst d.
  destruct r; simpl; try done.
  - (* /api/process *)
    destruct (process_audio_self w audio_data a files ltac:(lia))
      as [_ [Heq|[(t & reply & Heq)|(t & reply & Heq)]]];
      rewrite Heq; simpl; [done| |].
    + rewrite len_trimmed by lia. unfold len in *.
      rewrite length_app. simpl. lia.
    + rewrite len_trimmed by lia. unfold len in *.
      rewrite length_alter, length_renumber, drop_excess by lia.
      rewrite length_keep_last, !length_app. simpl. lia.
  - (* /api/memory-size *)
    unfold Server.set_memory_size.
    destruct (validate_size request) eqn:Hv; [done|].
    assert (size_allowed request) as Hok by by apply validate_size_None.
    pose proof (set_memory_size_route_spec request a (Some files) Hok) as Hr.
    unfold Server.set_memory_size in Hr. rewrite Hv in Hr. rewrite Hr.
    apply validate_size_bounds in Hv. simpl.
    rewrite !len_keep_last. lia.
  - (* /api/reset-custom-key *)
    destruct (reset_custom_key_spec a (Some files)) as (resp & _ & ->).
    simpl. rewrite drop_excess, trimmed_keep_last by lia.
    rewrite !len_keep_last. lia.
Qed.

(** ** Starting over *)

(** X12. After [/api/clear], a turn that [/api/process] answers with
    has id 1 and is the whole window; the history is its two
    messages, and the audio directory holds its two files and
    nothing else. *)
Theorem first_turn_after_clear s w audio_data c :
  reachable s →
  let s0 := (clear_conversations s).2 in
  body (process_audio w audio_data s0).1 = JsonTurn c →
  let s' := (process_audio w audio_data s0).2 in
  id c = 1
  ∧ conversations (self s') = [c]
  ∧ conversation_history (self s')
    = [user_message (user_text c); assistant_message (ai_text c)]
  ∧ ∃ tts, speak w (ai_text c) = Some tts
      ∧ disk s' = Some (<[output_audio c := tts]>
                          (<[input_audio c := audio_data]> ∅)).
Proof.
  intros Hs s0 Hc.
  assert (reachable s0) as Hs0 by apply (reach_step w PostClear s Hs).
  pose proof (reachable_invariant s Hs) as [[Hcap _] _ _ _].
  destruct (reachable_stores s0 w audio_data c Hs0 Hc)
    as (files & t & reply & tts & Hd & Ht & Hr & Hsp & Heq & Hp).
  subst s0. unfold clear_conversations, respond in *.
  rewrite clear_all_spec in *. simpl in *.
  injection Hd as <-. rewrite Hp. subst c. simpl.
  rewrite keep_last_all by (simpl; lia).
  repeat split. exists tts. done.
Qed.

(** ** Settings and statistics *)

(** X13. After an accepted [/api/memory-size] request,
    [/api/settings] reports the request's size and flag with the
    context switch as it was, and [/api/stats] reports that size as
    the limit and, as the count, the old count capped by it. After
    [/api/settings] switches the context to [b], [/api/settings]
    reports [b] with the size and the flag as they were, and nothing
    else of the session has changed. *)
Theorem settings_report_last_set request b s :
  size_allowed request →
  let s1 := (Server.set_memory_size request s).2 in
  let s2 := (update_settings b s).2 in
  Server.get_settings s1
  = ({| status_code := 200;
        body := JsonSettings (size request) (use_context (self s))
                  (req_is_custom request) |}, s1)
  ∧ Server.get_stats s1
    = ({| status_code := 200;
          body := JsonStats
                    (Z.min (len (conversations (self s))) (size request))
                    (size request) |}, s1)
  ∧ Server.get_settings s2
    = ({| status_code := 200;
          body := JsonSettings (memory_size (self s)) b
                    (is_custom (self s)) |}, s2)
  ∧ s2 = {| self := with_use_context b (self s); disk := disk s |}.
Proof.
  intros Hok. destruct s as [a d].
  pose proof Hok as Hb%validate_size_None%validate_size_bounds.
  rewrite set_memory_size_route_spec by done. cbn [snd].
  unfold Server.get_settings, Server.get_stats, respond,
    Agent.get_settings, Agent.get_stats, update_settings,
    Agent.set_use_context, set_use_context_field.
  exec. simpl. rewrite len_keep_last.
  repeat split. do 3 f_equal. lia.
Qed.

(** ** Checking a key *)

Section KeyCheck.

Lemma lower_app (p q : str) : lower (p +:+ q) = lower p +:+ lower q.
Proof. induction p as [|c p IH]; simpl; [done|]. by rewrite IH. Qed.

Lemma startswith_app (p q : str) : startswith p (p +:+ q) = true.
Proof.
  induction p as [|c p IH]; simpl; [done|].
  by rewrite Ascii.eqb_refl, IH.
Qed.

Lemma contains_app (needle before after : str) :
  contains needle (before +:+ needle +:+ after) = true.
Proof.
  induction before as [|c before IH]; simpl.
  - destruct (needle +:+ after) eqn:E; simpl;
      rewrite <- E, startswith_app; done.
  - rewrite IH. apply orb_true_r.
Qed.

(** X14. [validate_openai_key] never raises. The key is valid
    exactly when listing the models returns. When the exception's
    message holds the word "authentication" or the words "api key",
    in any letter case and anywhere in it, the error is "Invalid API
    key" and the message itself is withheld. *)
Theorem key_check_outcome (models_list : str → option str)
    (api_key before word after : str) :
  lower word = "authentication" ∨ lower word = "api key" →
  (valid (validate_openai_key models_list api_key) = true
   ↔ models_list api_key = None)
  ∧ (models_list api_key = Some (before +:+ word +:+ after) →
     validate_openai_key models_list api_key
     = {| valid := false; error := Some "Invalid API key" |}).
Proof.
  intros Hword. unfold validate_openai_key. split.
  - destruct (models_list api_key) as [msg|]; [|done].
    by destruct (_ || _).
  - intros ->. rewrite !lower_app.
    destruct Hword as [-> | ->]; rewrite contains_app; [done|].
    by rewrite orb_true_r.
Qed.

End KeyCheck.

(** ** The further properties at sample inputs *)

Lemma three_turns_reachable : reachable Sample.three_turns.
Proof. apply reachable_run. constructor. Qed.

Lemma five_turns_reachable : reachable Sample.five_turns.
Proof. apply reachable_run, three_turns_reachable. Qed.

Lemma trim_removes_audio_of_evicted_witness :
  0 ≤ memory_size Sample.over_capacity
  ∧ ∃ a' files',
      _trim_conversations
        {| self := Sample.over_capacity; disk := Some Sample.five_files |}
      = (Return tt, {| self := a'; disk := Some files' |})
      ∧ conversations Sample.over_capacity
        = take 2 (conversations Sample.over_capacity) ++ conversations a'.
Proof.
  split; [vm_compute; discriminate|].
  destruct (trim_removes_audio_of_evicted Sample.over_capacity
              Sample.five_files ltac:(vm_compute; discriminate))
    as (a' & files' & Heq & Hsplit & _).
  exists a', files'. split; [exact Heq | exact Hsplit].
Defined.

Lemma stored_turn_has_audio_witness :
  ∃ c files',
    reachable Sample.five_turns
    ∧ body (process_audio Sample.sixth [] Sample.five_turns).1 = JsonTurn c
    ∧ (input_audio c ∉ audio_paths (conversations (self Sample.five_turns)))
    ∧ (output_audio c
         ∉ audio_paths (conversations (self Sample.five_turns)))
    ∧ disk (process_audio Sample.sixth [] Sample.five_turns).2 = Some files'
    ∧ files' !! input_audio c = Some [].
Proof.
  assert (∃ c, body (process_audio Sample.sixth [] Sample.five_turns).1
               = JsonTurn c
             ∧ (input_audio c
                  ∉ audio_paths (conversations (self Sample.five_turns)))
             ∧ (output_audio c
                  ∉ audio_paths (conversations (self Sample.five_turns))))
    as (c & Hc & Hin & Hout).
  { eexists. split; [vm_compute; reflexivity|].
    split; apply (bool_decide_unpack _); vm_compute; exact I. }
  destruct (stored_turn_has_audio Sample.five_turns Sample.sixth [] c
              five_turns_reachable Hc Hin Hout)
    as (files' & Hd & Hi & _).
  exists c, files'.
  repeat split; [apply five_turns_reachable|exact Hc|exact Hin|exact Hout
                |exact Hd|exact Hi].
Defined.

Lemma stored_turn_is_last_witness :
  ∃ c,
    reachable Sample.five_turns
    ∧ body (process_audio Sample.sixth [] Sample.five_turns).1 = JsonTurn c
    ∧ last (conversations
              (self (process_audio Sample.sixth [] Sample.five_turns).2))
      = Some c
    ∧ id c = 5.
Proof.
  assert (∃ c, body (process_audio Sample.sixth [] Sample.five_turns).1
               = JsonTurn c ∧ id c = 5) as (c & Hc & Hid).
  { eexists. split; vm_compute; reflexivity. }
  exists c. split; [apply five_turns_reachable|]. split; [exact Hc|].
  split; [|exact Hid].
  exact (proj1 (stored_turn_is_last Sample.five_turns Sample.sixth [] c
                  five_turns_reachable Hc)).
Defined.

Lemma listed_after_stored_witness :
  ∃ c listed,
    reachable Sample.five_turns
    ∧ body (process_audio Sample.sixth [] Sample.five_turns).1 = JsonTurn c
    ∧ body (Server.get_conversations
              (process_audio Sample.sixth [] Sample.five_turns).2).1
      = JsonTurns listed
    ∧ last listed = Some c.
Proof.
  assert (∃ c, body (process_audio Sample.sixth [] Sample.five_turns).1
               = JsonTurn c) as (c & Hc).
  { eexists. vm_compute. reflexivity. }
  destruct (listed_after_stored Sample.five_turns Sample.sixth [] c
              five_turns_reachable Hc) as (listed & Heq & Hlast & _).
  exists c, listed. split; [apply five_turns_reachable|].
  split; [exact Hc|]. split; [by rewrite Heq | exact Hlast].
Defined.

Lemma stored_turn_urls_witness :
  ∃ c,
    reachable Sample.five_turns
    ∧ body (process_audio Sample.sixth [] Sample.five_turns).1 = JsonTurn c
    ∧ input_audio_url c = Some "/audio/input_1700000000006.wav"
    ∧ output_audio_url c = Some "/audio/output_1700000000006.mp3".
Proof.
  assert (∃ c, body (process_audio Sample.sixth [] Sample.five_turns).1
               = JsonTurn c) as (c & Hc).
  { eexists. vm_compute. reflexivity. }
  destruct (stored_turn_urls Sample.five_turns Sample.sixth [] c
              five_turns_reachable Hc) as (_ & _ & Hi & Ho).
  exists c. split; [apply five_turns_reachable|]. split; [exact Hc|].
  split; [exact Hi | exact Ho].
Defined.

Lemma supplied_key_is_used_witness :
  size_allowed Sample.preset_with_key
  ∧ api_key Sample.preset_with_key = Some "sk-sample"
  ∧ "sk-sample" ≠ EmptyString
  ∧ custom_openai_client
      (self (Server.set_memory_size Sample.preset_with_key
               Sample.three_turns).2)
    = Some "sk-sample".
Proof.
  assert (size_allowed Sample.preset_with_key) as Hok
    by (right; left; reflexivity).
  split; [exact Hok|]. split; [reflexivity|]. split; [discriminate|].
  exact (proj1 (supplied_key_is_used Sample.preset_with_key
                  Sample.three_turns "sk-sample" Sample.sixth "again"
                  Hok eq_refl ltac:(discriminate))).
Defined.

Lemma keyless_request_client_witness :
  size_allowed (Sample.shrink_to 2)
  ∧ (api_key (Sample.shrink_to 2) = None
     ∨ api_key (Sample.shrink_to 2) = Some EmptyString)
  ∧ custom_openai_client
      (self (Server.set_memory_size (Sample.shrink_to 2)
               (Server.set_memory_size Sample.preset_with_key
                  Sample.three_turns).2).2)
    = custom_openai_client
        (self (Server.set_memory_size Sample.preset_with_key
                 Sample.three_turns).2).
Proof.
  assert (size_allowed (Sample.shrink_to 2)) as Hok
    by (vm_compute; split; discriminate).
  split; [exact Hok|]. split; [left; reflexivity|].
  exact (proj1 (keyless_request_client (Sample.shrink_to 2)
                  (Server.set_memory_size Sample.preset_with_key
                     Sample.three_turns).2
                  Sample.sixth "again" Hok (or_introl eq_refl))).
Defined.

Lemma failure_before_reply_witness :
  disk (initial ∅) = Some ∅
  ∧ transcribe_file Sample.deaf [] = None
  ∧ ∃ e, process_audio Sample.deaf [] (initial ∅)
         = ({| status_code := 500; body := DetailOf e |},
            {| self := self (initial ∅);
               disk := Some (<[input_path_of (now Sample.deaf) := []]> ∅) |}).
Proof.
  split; [reflexivity|]. split; [reflexivity|].
  exact (failure_before_reply (initial ∅) Sample.deaf [] ∅
           eq_refl (or_introl eq_refl)).
Defined.

Lemma speech_failure_keeps_messages_witness :
  reachable Sample.three_turns
  ∧ speak Sample.mute "hi there" = None
  ∧ status_code (process_audio Sample.mute [] Sample.three_turns).1 = 500
  ∧ conversations (self (process_audio Sample.mute [] Sample.three_turns).2)
    = conversations (self Sample.three_turns).
Proof.
  split; [apply three_turns_reachable|]. split; [reflexivity|].
  destruct (speech_failure_keeps_messages Sample.three_turns Sample.mute []
              "hello" "hi there" three_turns_reachable
              eq_refl eq_refl eq_refl eq_refl) as (H1 & H2 & _).
  split; [exact H1 | exact H2].
Defined.

Lemma resizing_twice_witness :
  size_allowed (Sample.shrink_to 2)
  ∧ size_allowed Sample.preset_with_key
  ∧ conversations
      (self (Server.set_memory_size Sample.preset_with_key
               (Server.set_memory_size (Sample.shrink_to 2)
                  Sample.five_turns).2).2)
    = keep_last 2 (conversations (self Sample.five_turns)).
Proof.
  assert (size_allowed (Sample.shrink_to 2)) as H1
    by (vm_compute; split; discriminate).
  assert (size_allowed Sample.preset_with_key) as H2
    by (right; left; reflexivity).
  split; [exact H1|]. split; [exact H2|].
  exact (proj1 (proj2 (resizing_twice (Sample.shrink_to 2)
                         Sample.preset_with_key Sample.five_turns H1 H2))).
Defined.

Lemma history_covers_window_witness :
  reachable Sample.after_mute
  ∧ 2 * len (conversations (self Sample.after_mute))
    ≤ len (conversation_history (self Sample.after_mute)).
Proof.
  assert (reachable Sample.after_mute) as H
    by apply reachable_run, three_turns_reachable.
  split; [exact H|]. exact (proj1 (history_covers_window _ H)).
Defined.

Lemma first_turn_after_clear_witness :
  ∃ c,
    reachable Sample.five_turns
    ∧ body (process_audio Sample.sixth []
              (clear_conversations Sample.five_turns).2).1 = JsonTurn c
    ∧ id c = 1
    ∧ conversations
        (self (process_audio Sample.sixth []
                 (clear_conversations Sample.five_turns).2).2) = [c].
Proof.
  assert (∃ c, body (process_audio Sample.sixth []
                       (clear_conversations Sample.five_turns).2).1
               = JsonTurn c) as (c & Hc).
  { eexists. vm_compute. reflexivity. }
  destruct (first_turn_after_clear Sample.five_turns Sample.sixth [] c
              five_turns_reachable Hc) as (Hid & Hw & _).
  exists c. split; [apply five_turns_reachable|]. split; [exact Hc|].
  split; [exact Hid | exact Hw].
Defined.

Lemma settings_report_last_set_witness :
  size_allowed Sample.preset_with_key
  ∧ body (Server.get_stats
            (Server.set_memory_size Sample.preset_with_key
               Sample.five_turns).2).1
    = JsonStats 5 10.
Proof.
  assert (size_allowed Sample.preset_with_key) as Hok
    by (right; left; reflexivity).
  split; [exact Hok|].
  destruct (settings_report_last_set Sample.preset_with_key true
              Sample.five_turns Hok) as (_ & Hst & _).
  rewrite Hst. reflexivity.
Defined.

Lemma key_check_outcome_witness :
  lower "API Key" = "api key"
  ∧ validate_openai_key
      (λ _, Some "Error code: 401 - Incorrect API Key provided: sk-x")
      "sk-x"
    = {| valid := false; error := Some "Invalid API key" |}.
Proof.
  split; [reflexivity|].
  exact (proj2 (key_check_outcome
                  (λ _, Some "Error code: 401 - Incorrect API Key provided: sk-x")
                  "sk-x" "Error code: 401 - Incorrect " "API Key"
                  " provided: sk-x" (or_intror eq_refl)) eq_refl).
Defined.

Lemma process_audio_renumbers_witness :
  ∃ c,
    reachable Sample.stale_ids
    ∧ body (process_audio Sample.sixth [] Sample.stale_ids).1 = JsonTurn c
    ∧ dense_ids
        (conversations
           (self (process_audio Sample.sixth [] Sample.stale_ids).2)).
Proof.
  assert (reachable Sample.stale_ids) as H
    by apply reachable_run, three_turns_reachable.
  assert (∃ c, body (process_audio Sample.sixth [] Sample.stale_ids).1
               = JsonTurn c) as (c & Hc).
  { eexists. vm_compute. reflexivity. }
  exists c. split; [exact H|]. split; [exact Hc|].
  exact (process_audio_renumbers Sample.sixth [] _ c H Hc).
Defined.
